(** * luma.gl gltools: WebGL context state tracker

    A shallow embedding of
    [modules/gltools/src/lib/state-tracker/track-context-state.ts]:
    the [GLState] cache, its scope stack, and the get/set interceptors
    that [trackContextState] installs on a WebGL context.

    JavaScript values are a small tagged variant, JavaScript objects used
    as maps are key-ordered association lists, and the code's mutation of
    the context is a state-and-exception monad over the context. *)

From Stdlib Require Import List ZArith NArith String Bool Lia.
Import ListNotations.

Set Warnings "-register-all".

(** ** JavaScript values *)

Module JS.

(** The values that flow through the tracker.  [VObject] is an opaque
    handle (a WebGLProgram, a framebuffer) and is identified by its
    reference.  [VArray] is an Array or typed array: [ref] is the identity
    of the container, [elems] its contents. *)
Inductive value : Type :=
| VUndefined
| VNull
| VBool (b : bool)
| VNum (n : Z)
| VObject (ref : N)
| VArray (ref : N) (elems : list value).

(** The induction principle that also covers the elements of an array. *)
Fixpoint value_rect' (P : value -> Type) (Q : list value -> Type)
    (Pundef : P VUndefined) (Pnull : P VNull)
    (Pbool : forall b, P (VBool b)) (Pnum : forall n, P (VNum n))
    (Pobj : forall r, P (VObject r))
    (Parr : forall r l, Q l -> P (VArray r l))
    (Qnil : Q []) (Qcons : forall v l, P v -> Q l -> Q (v :: l))
    (v : value) : P v :=
  match v with
  | VUndefined => Pundef
  | VNull => Pnull
  | VBool b => Pbool b
  | VNum n => Pnum n
  | VObject r => Pobj r
  | VArray r l =>
      Parr r l
        ((fix elems_rect (l : list value) : Q l :=
            match l with
            | [] => Qnil
            | x :: l' =>
                Qcons x l'
                  (value_rect' P Q Pundef Pnull Pbool Pnum Pobj Parr Qnil Qcons x)
                  (elems_rect l')
            end) l)
  end.

(** [x === y]: scalars by value, objects and arrays by reference. *)
Definition strict_eq (x y : value) : bool :=
  match x, y with
  | VUndefined, VUndefined => true
  | VNull, VNull => true
  | VBool a, VBool b => Bool.eqb a b
  | VNum a, VNum b => Z.eqb a b
  | VObject a, VObject b => N.eqb a b
  | VArray a _, VArray b _ => N.eqb a b
  | _, _ => false
  end.

(** Modelled from the spec: [deepArrayEqual] of [../utils/utils], which is
    imported by the tracker but is not part of the sources at hand.  The
    spec asks for deep structural equality, order-sensitive for sequences,
    recursive, and independent of the identity of the container. *)
Fixpoint deepArrayEqual (x y : value) : bool :=
  match x, y with
  | VUndefined, VUndefined => true
  | VNull, VNull => true
  | VBool a, VBool b => Bool.eqb a b
  | VNum a, VNum b => Z.eqb a b
  | VObject a, VObject b => N.eqb a b
  | VArray _ xs, VArray _ ys =>
      (fix elems_equal (xs ys : list value) : bool :=
         match xs, ys with
         | [], [] => true
         | x' :: xs', y' :: ys' => deepArrayEqual x' y' && elems_equal xs' ys'
         | _, _ => false
         end) xs ys
  | _, _ => false
  end.

(** The same element-wise loop, named, for stating lemmas. *)
Fixpoint elems_equal (xs ys : list value) : bool :=
  match xs, ys with
  | [], [] => true
  | x :: xs', y :: ys' => deepArrayEqual x y && elems_equal xs' ys'
  | _, _ => false
  end.

(** ** JavaScript objects used as maps

    The tracker's cache, its scope frames and the [values] argument of
    [_updateCache] are plain objects keyed by GL parameter constants.
    [for (key in obj)] enumerates such integer keys in ascending order, so
    an object is kept as an association list ordered by key. *)

Definition key : Type := N.
Definition obj : Type := list (key * value).

(** [obj[k] = v] *)
Fixpoint obj_set (o : obj) (k : key) (v : value) : obj :=
  match o with
  | [] => [(k, v)]
  | (k', v') :: rest =>
      match N.compare k k' with
      | Lt => (k, v) :: o
      | Eq => (k, v) :: rest
      | Gt => (k', v') :: obj_set rest k v
      end
  end.

Fixpoint obj_find (o : obj) (k : key) : option value :=
  match o with
  | [] => None
  | (k', v') :: rest => if N.eqb k k' then Some v' else obj_find rest k
  end.

(** [obj[k]], which is [undefined] for a missing key. *)
Definition obj_get (o : obj) (k : key) : value :=
  match obj_find o k with
  | Some v => v
  | None => VUndefined
  end.

(** [k in obj] *)
Definition obj_has (o : obj) (k : key) : bool :=
  match obj_find o k with
  | Some _ => true
  | None => false
  end.

(** An object literal [{[k1]: v1, [k2]: v2, ...}], and [Object.assign({}, o)]:
    a later entry for a key replaces an earlier one. *)
Definition obj_of_entries (entries : list (key * value)) : obj :=
  fold_left (fun o kv => obj_set o (fst kv) (snd kv)) entries [].

Definition obj_keys (o : obj) : list key := map fst o.

(** Keys in strictly ascending order: what every object built by [obj_set]
    satisfies, and what makes each key occur once. *)
Fixpoint keys_ascending (ks : list key) : Prop :=
  match ks with
  | [] => True
  | k :: rest =>
      match rest with
      | [] => True
      | k' :: _ => (k < k')%N
      end /\ keys_ascending rest
  end.

Definition obj_wf (o : obj) : Prop := keys_ascending (obj_keys o).

End JS.
Import JS.

(** ** The context and the tracker's state *)

(** A hooked setter of [GL_HOOKED_SETTERS].  In the source it is a function
    [(update, ...params) => update({...})]; the table itself is not part of
    the sources at hand.

    Modelled from the spec: the adapter translates the call's arguments into
    one or more {identifier -> value} entries and forwards them to the
    cache's update.  An adapter is therefore the function from the
    arguments to the entries of that object literal. *)
Definition adapter : Type := list value -> list (key * value).

(** A get-style function of the context: the implementation's own, or the
    closure [get] that [installGetterOverride] builds around the function it
    replaces. *)
Inductive GetFn : Type :=
| GetNative (name : string)
| GetFromCache (originalGetterFunc : GetFn).

(** A set-style function of the context: the implementation's own, the
    closure [set] of [installSetterSpy], or [useProgramLuma] of
    [installProgramSpy]. *)
Inductive SetFn : Type :=
| SetNative (name : string)
| SetToCache (setter : adapter) (originalSetterFunc : SetFn)
| UseProgramLuma (originalUseProgram : SetFn).

(** [class GLState].  [stateStack] grows at its end, as [Array.push] does.
    The fields [gl] (a back pointer) and [log] (never called here) are left
    out. *)
Record GLState : Type := mkGLState {
  program : value;
  stateStack : list obj;
  enable : bool;
  cache : obj
}.

(** A call that reached the WebGL implementation. *)
Inductive Call : Type :=
| CallGet (name : string) (pname : option key)
| CallSet (name : string) (params : list value)
| CallRestore (values : obj).

(** The context object [gl]: the implementation's own state [native], the
    calls that reached it, the functions currently installed on the object,
    and the attached [gl.state], if any. *)
Record WebGLRenderingContext (U : Type) : Type := mkContext {
  native : U;
  calls : list Call;
  getParameter : GetFn;
  isEnabled : GetFn;
  functions : list (string * SetFn);
  state : option GLState
}.

Arguments mkContext {U}.
Arguments native {U}.
Arguments calls {U}.
Arguments getParameter {U}.
Arguments isEnabled {U}.
Arguments functions {U}.
Arguments state {U}.

(** What the tracker takes from outside: the WebGL implementation, whose
    effects are its own business, and the tables of
    [./webgl-parameter-tables]. *)
Class Platform : Type := {
  U : Type;
  (** the implementation's [getParameter] and [isEnabled] *)
  nativeGet : string -> option key -> U -> value;
  (** the implementation's set-style functions *)
  nativeSet : string -> list value -> U -> U;
  (** the implementation's effect when a batch of parameters is applied *)
  nativeRestore : obj -> U -> U;
  GL_PARAMETER_DEFAULTS : list (key * value);
  GL_HOOKED_SETTERS : list (string * adapter);
  NON_CACHE_PARAMETERS : list key;
  (** [global.polyfillContext], when the global object has one *)
  polyfillContext : option (WebGLRenderingContext U -> WebGLRenderingContext U)
}.

(** ** Effects: mutation of the context, and exceptions *)

Inductive error : Type :=
| AssertionFailed
| TypeError.

Inductive outcome (S A : Type) : Type :=
| Returns (a : A) (s : S)
| Throws (e : error) (s : S).

Arguments Returns {S A}.
Arguments Throws {S A}.

Definition M (S A : Type) : Type := S -> outcome S A.

Definition ret {S A} (a : A) : M S A := fun s => Returns a s.

Definition bind {S A B} (m : M S A) (k : A -> M S B) : M S B :=
  fun s =>
    match m s with
    | Returns a s' => k a s'
    | Throws e s' => Throws e s'
    end.

Definition throw {S A} (e : error) : M S A := fun s => Throws e s.

Declare Scope js_scope.
Delimit Scope js_scope with js.
Notation "x <- m ;; k" := (bind m (fun x => k))
  (at level 61, m at next level, right associativity) : js_scope.
Notation "m ;; k" := (bind m (fun _ => k))
  (at level 61, right associativity) : js_scope.
Open Scope js_scope.

(** Modelled from the spec: [assert] of [../utils/assert], not part of the
    sources at hand.  A failed assertion is fatal: the call terminates at
    once by throwing. *)
Definition assert {S} (condition : bool) : M S unit :=
  if condition then ret tt else throw AssertionFailed.

(** The final context of a run, whichever way it ended. *)
Definition final {S A} (o : outcome S A) : S :=
  match o with
  | Returns _ s => s
  | Throws _ s => s
  end.

Definition map_final {S A} (f : S -> S) (o : outcome S A) : outcome S A :=
  match o with
  | Returns a s => Returns a (f s)
  | Throws e s => Throws e (f s)
  end.

(** Invoking the same call [n] times in a row, keeping the last result. *)
Fixpoint repeat_call {S A} (n : nat) (m : M S A) (first : A) : M S A :=
  match n with
  | O => ret first
  | Datatypes.S n' => a <- m ;; repeat_call n' m a
  end.

(** ** The tracker *)

Section Tracker.

Context {P : Platform}.

Definition GL : Type := WebGLRenderingContext U.

(** Computations that mutate the context [gl] and may throw. *)
Definition Action (A : Type) : Type := M GL A.

Definition set_state (gl : GL) (st : option GLState) : GL :=
  mkContext (native gl) (calls gl) (getParameter gl) (isEnabled gl)
    (functions gl) st.

(** Reading [gl.state.<field>]: a TypeError when [gl.state] is undefined. *)
Definition get_state : Action GLState :=
  fun gl =>
    match state gl with
    | Some st => Returns st gl
    | None => Throws TypeError gl
    end.

Definition put_state (st : GLState) : Action unit :=
  fun gl => Returns tt (set_state gl (Some st)).

(** *** Calls into the WebGL implementation

    Each call is appended to the log [calls]; the implementation's own
    functions are taken not to throw. *)

Definition native_get (name : string) (pname : option key) : Action value :=
  fun gl =>
    Returns (nativeGet name pname (native gl))
      (mkContext (native gl) (calls gl ++ [CallGet name pname])
         (getParameter gl) (isEnabled gl) (functions gl) (state gl)).

Definition native_set (name : string) (params : list value) : Action value :=
  fun gl =>
    Returns VUndefined
      (mkContext (nativeSet name params (native gl))
         (calls gl ++ [CallSet name params])
         (getParameter gl) (isEnabled gl) (functions gl) (state gl)).

Definition native_restore (values : obj) : Action unit :=
  fun gl =>
    Returns tt
      (mkContext (nativeRestore values (native gl))
         (calls gl ++ [CallRestore values])
         (getParameter gl) (isEnabled gl) (functions gl) (state gl)).

(** *** GLState._updateCache *)

Record UpdateResult : Type := mkUpdateResult {
  valueChanged : bool;
  oldValue : value
}.

(** [this.stateStack.length > 0 && this.stateStack[this.stateStack.length - 1]] *)
Definition top_frame (stack : list obj) : option obj :=
  match stack with
  | [] => None
  | _ :: _ => Some (last stack [])
  end.

(** [oldValues] is the top frame itself, not a copy: what the loop writes
    into it is written into the stack. *)
Definition write_top_frame (stack : list obj) (oldValues : option obj) : list obj :=
  match oldValues with
  | Some frame => removelast stack ++ [frame]
  | None => stack
  end.

(** The body of [for (const key in values)], for one key. *)
Definition update_entry (key0 : key) (value0 : value)
    (acc : obj * option obj * UpdateResult) : obj * option obj * UpdateResult :=
  let '(cache0, oldValues, r) := acc in
  let cached := obj_get cache0 key0 in
  if deepArrayEqual value0 cached then acc
  else
    let oldValues' :=
      match oldValues with
      | Some frame =>
          if obj_has frame key0 then Some frame
          else Some (obj_set frame key0 cached)
      | None => None
      end in
    (obj_set cache0 key0 value0, oldValues', mkUpdateResult true cached).

Fixpoint update_loop (values : obj) (acc : obj * option obj * UpdateResult)
    : obj * option obj * UpdateResult :=
  match values with
  | [] => acc
  | (key0, value0) :: rest => update_loop rest (update_entry key0 value0 acc)
  end.

Definition _updateCache (this : GLState) (values : obj) : GLState * UpdateResult :=
  let oldValues := top_frame (stateStack this) in
  let '(cache', oldValues', r) :=
    update_loop values (cache this, oldValues, mkUpdateResult false VUndefined) in
  (mkGLState (program this) (write_top_frame (stateStack this) oldValues')
     (enable this) cache',
   r).

(** [gl.state._updateCache(values)] *)
Definition updateCache (values : obj) : Action UpdateResult :=
  this <- get_state ;;
  let '(this', r) := _updateCache this values in
  put_state this' ;;
  ret r.

(** *** The interceptors *)

(** [pname === undefined || NON_CACHE_PARAMETERS.has(pname)] *)
Definition not_cached (pname : option key) : bool :=
  match pname with
  | None => true
  | Some k => existsb (N.eqb k) NON_CACHE_PARAMETERS
  end.

(** Calling a get-style function; [GetFromCache] is the closure [get] of
    [installGetterOverride]. *)
Fixpoint call_get (f : GetFn) (pname : option key) : Action value :=
  match f with
  | GetNative name => native_get name pname
  | GetFromCache originalGetterFunc =>
      if not_cached pname then call_get originalGetterFunc pname
      else
        match pname with
        | None => call_get originalGetterFunc pname
        | Some k =>
            st <- get_state ;;
            (if obj_has (cache st) k then ret tt
             else
               v <- call_get originalGetterFunc pname ;;
               st' <- get_state ;;
               put_state
                 (mkGLState (program st') (stateStack st') (enable st')
                    (obj_set (cache st') k v))) ;;
            st <- get_state ;;
            if enable st then ret (obj_get (cache st) k)
            else call_get originalGetterFunc pname
        end
  end.

(** Calling a set-style function; [SetToCache] is the closure [set] of
    [installSetterSpy], [UseProgramLuma] the closure of [installProgramSpy]. *)
Fixpoint call_set (f : SetFn) (params : list value) : Action value :=
  match f with
  | SetNative name => native_set name params
  | SetToCache setter originalSetterFunc =>
      r <- updateCache (obj_of_entries (setter params)) ;;
      (if valueChanged r then call_set originalSetterFunc params
       else ret VUndefined) ;;
      ret (oldValue r)
  | UseProgramLuma originalUseProgram =>
      let handle := nth 0 params VUndefined in
      st <- get_state ;;
      if strict_eq (program st) handle then ret VUndefined
      else
        call_set originalUseProgram [handle] ;;
        st' <- get_state ;;
        put_state (mkGLState handle (stateStack st') (enable st') (cache st')) ;;
        ret VUndefined
  end.

(** [gl[functionName]] *)
Fixpoint lookup_fn (fs : list (string * SetFn)) (functionName : string)
    : option SetFn :=
  match fs with
  | [] => None
  | (n, f) :: rest =>
      if String.eqb n functionName then Some f else lookup_fn rest functionName
  end.

(** [gl[functionName] = f], for a function the context already has *)
Fixpoint replace_fn (fs : list (string * SetFn)) (functionName : string)
    (f : SetFn) : list (string * SetFn) :=
  match fs with
  | [] => []
  | (n, g) :: rest =>
      if String.eqb n functionName then (n, f) :: rest
      else (n, g) :: replace_fn rest functionName f
  end.

(** [gl[functionName](...params)]; calling what is not there is a TypeError. *)
Definition call (functionName : string) (params : list value) : Action value :=
  fun gl =>
    match lookup_fn (functions gl) functionName with
    | Some f => call_set f params gl
    | None => Throws TypeError gl
    end.

Definition gl_getParameter (pname : option key) : Action value :=
  fun gl => call_get (getParameter gl) pname gl.

Definition gl_isEnabled (pname : option key) : Action value :=
  fun gl => call_get (isEnabled gl) pname gl.

Definition installGetterOverride_getParameter : Action unit :=
  fun gl =>
    Returns tt
      (mkContext (native gl) (calls gl) (GetFromCache (getParameter gl))
         (isEnabled gl) (functions gl) (state gl)).

Definition installGetterOverride_isEnabled : Action unit :=
  fun gl =>
    Returns tt
      (mkContext (native gl) (calls gl) (getParameter gl)
         (GetFromCache (isEnabled gl)) (functions gl) (state gl)).

Definition set_functions (gl : GL) (fs : list (string * SetFn)) : GL :=
  mkContext (native gl) (calls gl) (getParameter gl) (isEnabled gl) fs (state gl).

Definition installSetterSpy (functionName : string) (setter : adapter) : Action unit :=
  fun gl =>
    match lookup_fn (functions gl) functionName with
    | None => Returns tt gl
    | Some originalSetterFunc =>
        Returns tt
          (set_functions gl
             (replace_fn (functions gl) functionName
                (SetToCache setter originalSetterFunc)))
    end.

Definition installProgramSpy : Action unit :=
  fun gl =>
    match lookup_fn (functions gl) "useProgram" with
    | None => Throws TypeError gl
    | Some originalUseProgram =>
        Returns tt
          (set_functions gl
             (replace_fn (functions gl) "useProgram"
                (UseProgramLuma originalUseProgram)))
    end.

(** [for (const key in GL_HOOKED_SETTERS) installSetterSpy(gl, key, setter)] *)
Fixpoint install_setters (table : list (string * adapter)) : Action unit :=
  match table with
  | [] => ret tt
  | (name, setter) :: rest =>
      installSetterSpy name setter ;; install_setters rest
  end.

(** *** GLState: constructor, push, pop *)

(** Modelled from the spec: [getParameters] of [./unified-parameter-api],
    not part of the sources at hand.  It takes a live snapshot of all
    cacheable parameters: one read through [gl.getParameter] for each
    identifier of the defaults table. *)
Fixpoint getParameters (ids : list key) (snapshot : obj) : Action obj :=
  match ids with
  | [] => ret snapshot
  | k :: rest =>
      v <- gl_getParameter (Some k) ;;
      getParameters rest (obj_set snapshot k v)
  end.

(** [new GLState(gl, {copyState})] *)
Definition new_GLState (copyState : bool) : Action GLState :=
  cache0 <- (if copyState
             then getParameters (obj_keys (obj_of_entries GL_PARAMETER_DEFAULTS)) []
             else ret (obj_of_entries GL_PARAMETER_DEFAULTS)) ;;
  ret (mkGLState VNull [] true cache0).

(** Modelled from the spec: [setParameters] of [./unified-parameter-api],
    not part of the sources at hand.  The spec has pop apply the frame's
    {identifier -> old value} mapping through the same path as a normal
    multi-parameter set: the mapping goes to the cache's update, and the
    underlying context is written only when update reports a change.  That
    write is one [CallRestore] in the log. *)
Definition setParameters (values : obj) : Action unit :=
  r <- updateCache values ;;
  if valueChanged r then native_restore values else ret tt.

(** [gl.state.push()] *)
Definition GLState_push : Action unit :=
  this <- get_state ;;
  put_state
    (mkGLState (program this) (stateStack this ++ [[]]) (enable this) (cache this)).

(** [gl.state.pop()] *)
Definition GLState_pop : Action unit :=
  this <- get_state ;;
  assert (0 <? List.length (stateStack this))%nat ;;
  let oldValues := last (stateStack this) [] in
  setParameters oldValues ;;
  this' <- get_state ;;
  put_state
    (mkGLState (program this') (removelast (stateStack this')) (enable this')
       (cache this')).

(** *** Public API *)

(** The [options] argument of [trackContextState]; a missing member is
    [None].  [log] is never read. *)
Record Options : Type := mkOptions {
  opt_enable : option bool;
  opt_copyState : option bool
}.

Definition set_enable (e : bool) (gl : GL) : GL :=
  match state gl with
  | Some st =>
      set_state gl (Some (mkGLState (program st) (stateStack st) e (cache st)))
  | None => gl
  end.

Definition trackContextState (options : option Options) : Action GL :=
  match options with
  | None => throw TypeError
  | Some options =>
      let enable0 :=
        match opt_enable options with Some e => e | None => true end in
      let copyState := opt_copyState options in
      assert (match copyState with Some _ => true | None => false end) ;;
      (fun gl =>
         match state gl with
         | Some _ => Returns tt gl
         | None =>
             ((fun gl =>
                 match polyfillContext with
                 | Some polyfill => Returns tt (polyfill gl)
                 | None => Returns tt gl
                 end) ;;
              st <- new_GLState
                      (match copyState with Some c => c | None => false end) ;;
              put_state st ;;
              installProgramSpy ;;
              install_setters GL_HOOKED_SETTERS ;;
              installGetterOverride_getParameter ;;
              installGetterOverride_isEnabled) gl
         end) ;;
      st <- get_state ;;
      put_state (mkGLState (program st) (stateStack st) enable0 (cache st)) ;;
      (fun gl => Returns gl gl)
  end.

Definition pushContextState : Action unit :=
  (fun gl =>
     match state gl with
     | Some _ => Returns tt gl
     | None =>
         (trackContextState (Some (mkOptions None (Some false))) ;; ret tt) gl
     end) ;;
  GLState_push.

Definition popContextState : Action unit :=
  (fun gl =>
     assert (match state gl with Some _ => true | None => false end) gl) ;;
  GLState_pop.

(** *** What the calls do to [gl.state]

    The tracker's state after each call, the calls into the implementation
    left aside. *)

(** after [gl.state.push()] *)
Definition GLState_pushed (this : GLState) : GLState :=
  mkGLState (program this) (stateStack this ++ [[]]) (enable this) (cache this).

(** after [gl.state._updateCache(values)] *)
Definition GLState_updated (this : GLState) (values : obj) : GLState :=
  fst (_updateCache this values).

(** after [gl.state.pop()], for a stack that is not empty *)
Definition GLState_popped (this : GLState) : GLState :=
  let this' := GLState_updated this (last (stateStack this) []) in
  mkGLState (program this') (removelast (stateStack this')) (enable this')
    (cache this').

(** The call returns, and leaves [gl.state] as [st']. *)
Definition lands {A} (m : Action A) (gl : GL) (st' : GLState) : Prop :=
  exists a gl', m gl = Returns a gl' /\ state gl' = Some st'.

(** Every entry of [values] is deep-equal to what the cache holds. *)
Definition matches_cache (cache0 : obj) (values : obj) : Prop :=
  Forall (fun kv => deepArrayEqual (snd kv) (obj_get cache0 (fst kv)) = true)
    values.

(** Two objects with the same keys and deep-equal values. *)
Definition same_entries (values' values : obj) : Prop :=
  Forall2
    (fun kv' kv =>
       fst kv' = fst kv /\ deepArrayEqual (snd kv') (snd kv) = true)
    values' values.

(** Inside a scope opened on stack [s0] with cache [c0], in which only the
    identifier [A] has been set: the top frame is still empty and [A] has
    its old value, or the frame records that old value for [A]; the rest
    of the cache reads as before. *)
Definition in_scope (s0 : list obj) (c0 : obj) (A : key) (st : GLState) : Prop :=
  (stateStack st = s0 ++ [[]] /\ obj_get (cache st) A = obj_get c0 A \/
   stateStack st = s0 ++ [[(A, obj_get c0 A)]]) /\
  (forall k, k <> A -> obj_get (cache st) k = obj_get c0 k).

(** The call does not look at [gl.state.enable]. *)
Definition ignores_enable {A} (m : Action A) : Prop :=
  forall (e : bool) (gl : GL),
    m (set_enable e gl) = map_final (set_enable e) (m gl).

(** "Exactly one underlying call in total": a first call of a hooked setter
    and [n] more with the same arguments add one call to the log. *)
Definition repeated_calls_reach_once : Prop :=
  forall (setter : adapter) (name : string) (params : list value)
         (gl : GL) (st : GLState) (n : nat),
    state gl = Some st ->
    let set := call_set (SetToCache setter (SetNative name)) params in
    List.length (calls (final ((first <- set ;; repeat_call n set first) gl))) =
    Datatypes.S (List.length (calls gl)).

(** "Changes made during the restore are attributed to the next-outer
    frame": an identifier whose cached value [pop()] changes is recorded in
    the frame below the one popped. *)
Definition restore_recorded_in_outer_frame : Prop :=
  forall (gl gl' : GL) (st st' : GLState) (s : list obj) (outer top : obj)
         (k : key),
    state gl = Some st -> stateStack st = s ++ [outer; top] ->
    GLState_pop gl = Returns tt gl' -> state gl' = Some st' ->
    obj_get (cache st') k <> obj_get (cache st) k ->
    obj_has (last (stateStack st') []) k = true.

End Tracker.

(** ** Scripts: sets and nested scopes

    What a user of the tracker writes: calls of hooked setters, and scopes
    [gl.state.push(); ...; gl.state.pop()] around them, nested at will. *)

Section Scripts.

Context {P : Platform}.

Inductive Script : Type :=
| Skip
| Invoke (setter : adapter) (name : string) (params : list value)
| Scoped (body : Script)
| Then (first second : Script).

(** Running a script on the context.  [Invoke setter name params] is
    [gl[name](...params)] for a function [name] that [installSetterSpy]
    wrapped around the implementation's own. *)
Fixpoint run (p : Script) : Action unit :=
  match p with
  | Skip => ret tt
  | Invoke setter name params =>
      call_set (SetToCache setter (SetNative name)) params ;; ret tt
  | Scoped body => GLState_push ;; run body ;; GLState_pop
  | Then first second => run first ;; run second
  end.

(** What the script does to [gl.state], the calls into the implementation
    left aside. *)
Fixpoint run_state (p : Script) (st : GLState) : GLState :=
  match p with
  | Skip => st
  | Invoke setter _ params =>
      GLState_updated st (obj_of_entries (setter params))
  | Scoped body => GLState_popped (run_state body (GLState_pushed st))
  | Then first second => run_state second (run_state first st)
  end.

(** Inside a scope opened on cache [c0]: what the frame [f] has recorded
    for an identifier is deep-equal to its value in [c0], and an identifier
    without a record still reads, in cache [c], deep-equal to [c0]. *)
Definition restorable (c0 c f : obj) : Prop :=
  obj_wf f /\
  forall k,
    match obj_find f k with
    | Some x => deepArrayEqual x (obj_get c0 k) = true
    | None => deepArrayEqual (obj_get c k) (obj_get c0 k) = true
    end.

(** The context after [installProgramSpy], [installSetterSpy] for the table
    and the two calls of [installGetterOverride], with [gl.state] and the
    functions of the context given. *)
Definition tracked_context (gl0 : GL) (fs : list (string * SetFn))
    (st : GLState) : GL :=
  mkContext (native gl0) (calls gl0) (GetFromCache (getParameter gl0))
    (GetFromCache (isEnabled gl0)) fs (Some st).

(** [if (polyfillContext) polyfillContext(gl)] *)
Definition polyfilled (gl : GL) : GL :=
  match polyfillContext with
  | Some polyfill => polyfill gl
  | None => gl
  end.

End Scripts.

(** ** A small WebGL implementation, to run the tracker on *)

Module Demo.

Definition GL_BLEND : key := 3042%N.
Definition GL_BLEND_COLOR : key := 32773%N.
Definition GL_MAX_TEXTURE_SIZE : key := 3379%N.
Definition GL_ACTIVE_TEXTURE : key := 34016%N.

Definition capability (params : list value) : key :=
  match params with
  | VNum n :: _ => Z.to_N n
  | _ => 0%N
  end.

(** The implementation keeps the value last written to each parameter. *)
Definition demo_nativeGet (name : string) (pname : option key) (u : obj) : value :=
  match pname with
  | Some k => obj_get u k
  | None => VNull
  end.

Definition demo_nativeSet (name : string) (params : list value) (u : obj) : obj :=
  if String.eqb name "enable" then obj_set u (capability params) (VBool true)
  else if String.eqb name "disable" then obj_set u (capability params) (VBool false)
  else if String.eqb name "blendColor" then obj_set u GL_BLEND_COLOR (VArray 0 params)
  else u.

Definition demo_nativeRestore (values : obj) (u : obj) : obj :=
  fold_left (fun u' kv => obj_set u' (fst kv) (snd kv)) values u.

Definition zero4 : list value := [VNum 0%Z; VNum 0%Z; VNum 0%Z; VNum 0%Z].

Definition enable_adapter : adapter :=
  fun params => [(capability params, VBool true)].
Definition disable_adapter : adapter :=
  fun params => [(capability params, VBool false)].
Definition blendColor_adapter : adapter :=
  fun params => [(GL_BLEND_COLOR, VArray 1 params)].

#[export] Instance platform : Platform := {|
  U := obj;
  nativeGet := demo_nativeGet;
  nativeSet := demo_nativeSet;
  nativeRestore := demo_nativeRestore;
  GL_PARAMETER_DEFAULTS :=
    [(GL_BLEND, VBool false); (GL_BLEND_COLOR, VArray 0 zero4)];
  GL_HOOKED_SETTERS :=
    [("enable"%string, enable_adapter);
     ("disable"%string, disable_adapter);
     ("blendColor"%string, blendColor_adapter)];
  NON_CACHE_PARAMETERS := [GL_ACTIVE_TEXTURE];
  polyfillContext := None
|}.

(** A context fresh from the implementation, with nothing installed. *)
Definition fresh : GL :=
  mkContext
    [(GL_BLEND, VBool false); (GL_MAX_TEXTURE_SIZE, VNum 4096%Z);
     (GL_BLEND_COLOR, VArray 0 zero4); (GL_ACTIVE_TEXTURE, VNum 33984%Z)]
    []
    (GetNative "getParameter") (GetNative "isEnabled")
    [("useProgram"%string, SetNative "useProgram");
     ("enable"%string, SetNative "enable");
     ("disable"%string, SetNative "disable");
     ("blendColor"%string, SetNative "blendColor")]
    None.

(** [trackContextState(gl, {copyState: false})] on it. *)
Definition tracked : GL :=
  final (trackContextState (Some (mkOptions None (Some false))) fresh).

(** Its [gl.state]. *)
Definition tracked_state : GLState :=
  mkGLState VNull [] true
    [(GL_BLEND, VBool false); (GL_BLEND_COLOR, VArray 0 zero4)].

Definition gl_enable : SetFn := SetToCache enable_adapter (SetNative "enable").
Definition gl_disable : SetFn := SetToCache disable_adapter (SetNative "disable").
Definition gl_blendColor : SetFn :=
  SetToCache blendColor_adapter (SetNative "blendColor").
Definition gl_useProgram : SetFn := UseProgramLuma (SetNative "useProgram").

Definition red : list value := [VNum 1%Z; VNum 0%Z; VNum 0%Z; VNum 1%Z].
Definition green : list value := [VNum 0%Z; VNum 1%Z; VNum 0%Z; VNum 1%Z].

(** Two scopes open, and [BLEND] enabled in the inner one. *)
Definition nested : GL :=
  final ((GLState_push ;; GLState_push ;;
          call_set gl_enable [VNum (Z.of_N GL_BLEND)]) tracked).

(** A context that lacks [useProgram]. *)
Definition bare : GL :=
  mkContext
    [(GL_BLEND, VBool false)]
    []
    (GetNative "getParameter") (GetNative "isEnabled")
    [("enable"%string, SetNative "enable")]
    None.

(** [blendColor(1, 0, 0, 1)], and inside a nested scope [enable(BLEND)]. *)
Definition paint : Script :=
  Then (Invoke blendColor_adapter "blendColor" red)
       (Scoped (Invoke enable_adapter "enable" [VNum (Z.of_N GL_BLEND)])).

Definition nested_state : GLState :=
  mkGLState VNull [[]; [(GL_BLEND, VBool false)]] true
    [(GL_BLEND, VBool true); (GL_BLEND_COLOR, VArray 0 zero4)].

(** The same tracked context with reads switched to live. *)
Definition tracked_off : GL :=
  final (trackContextState (Some (mkOptions (Some false) (Some false))) tracked).

Definition tracked_off_state : GLState :=
  mkGLState VNull [] false
    [(GL_BLEND, VBool false); (GL_BLEND_COLOR, VArray 0 zero4)].

End Demo.

(** ** Properties of values and objects *)

Lemma deepArrayEqual_array (r r' : N) (xs ys : list value) :
  deepArrayEqual (VArray r xs) (VArray r' ys) = elems_equal xs ys.
Proof. reflexivity. Qed.

Lemma deepArrayEqual_refl (v : value) : deepArrayEqual v v = true.
Proof.
  induction v using value_rect'
    with (Q := fun l => elems_equal l l = true); simpl; auto.
  - apply Bool.eqb_reflx.
  - apply Z.eqb_refl.
  - apply N.eqb_refl.
  - rewrite IHv; simpl. exact IHv0.
Qed.

Lemma deepArrayEqual_sym (x y : value) :
  deepArrayEqual x y = deepArrayEqual y x.
Proof.
  revert y.
  induction x using value_rect'
    with (Q := fun l => forall l', elems_equal l l' = elems_equal l' l).
  - intros []; reflexivity.
  - intros []; reflexivity.
  - intros []; simpl; auto. destruct b, b0; reflexivity.
  - intros []; simpl; auto. apply Z.eqb_sym.
  - intros []; simpl; auto. apply N.eqb_sym.
  - intros []; try reflexivity.
    rewrite !deepArrayEqual_array. apply IHx.
  - intros []; reflexivity.
  - intros [| y l']; simpl; [reflexivity |].
    rewrite IHx, IHx0. reflexivity.
Qed.

Lemma deepArrayEqual_trans (x y z : value) :
  deepArrayEqual x y = true -> deepArrayEqual y z = true ->
  deepArrayEqual x z = true.
Proof.
  revert y z.
  induction x using value_rect'
    with (Q := fun l => forall l' l'',
                 elems_equal l l' = true -> elems_equal l' l'' = true ->
                 elems_equal l l'' = true).
  - intros [] []; simpl; congruence.
  - intros [] []; simpl; congruence.
  - intros [] []; simpl; try congruence.
    intros H1 H2. apply Bool.eqb_prop in H1, H2. subst. apply Bool.eqb_reflx.
  - intros [] []; simpl; try congruence.
    intros H1 H2. apply Z.eqb_eq in H1, H2. subst. apply Z.eqb_refl.
  - intros [] []; simpl; try congruence.
    intros H1 H2. apply N.eqb_eq in H1, H2. subst. apply N.eqb_refl.
  - intros [] []; try (simpl; congruence).
    rewrite !deepArrayEqual_array. apply IHx.
  - intros [] []; simpl; congruence.
  - intros [| y l'] [| z l'']; simpl; try congruence.
    intros H1 H2.
    apply andb_true_iff in H1, H2. destruct H1 as [H1 H1'], H2 as [H2 H2'].
    apply andb_true_iff. split; eauto.
Qed.

(** Deep equality is blind to the identity of the container. *)
Lemma deepArrayEqual_distinct_container (r r' : N) (elems : list value) :
  deepArrayEqual (VArray r elems) (VArray r' elems) = true.
Proof.
  rewrite deepArrayEqual_array.
  induction elems as [| v l IH]; simpl; [reflexivity |].
  rewrite deepArrayEqual_refl. exact IH.
Qed.

Lemma obj_find_set_eq (o : obj) (k : key) (v : value) :
  obj_find (obj_set o k v) k = Some v.
Proof.
  induction o as [| [k' v'] rest IH]; simpl.
  - rewrite N.eqb_refl. reflexivity.
  - destruct (N.compare_spec k k') as [Heq | Hlt | Hgt]; simpl.
    + rewrite N.eqb_refl. reflexivity.
    + rewrite N.eqb_refl. reflexivity.
    + destruct (N.eqb_spec k k'); [lia | exact IH].
Qed.

Lemma obj_find_set_ne (o : obj) (k k2 : key) (v : value) :
  k2 <> k -> obj_find (obj_set o k v) k2 = obj_find o k2.
Proof.
  intros Hne.
  induction o as [| [k' v'] rest IH]; simpl.
  - destruct (N.eqb_spec k2 k); [contradiction | reflexivity].
  - destruct (N.compare_spec k k') as [Heq | Hlt | Hgt]; simpl.
    + subst k'. destruct (N.eqb_spec k2 k); [contradiction | reflexivity].
    + destruct (N.eqb_spec k2 k); [contradiction | reflexivity].
    + rewrite IH. reflexivity.
Qed.

Lemma obj_get_set_eq (o : obj) (k : key) (v : value) :
  obj_get (obj_set o k v) k = v.
Proof. unfold obj_get. rewrite obj_find_set_eq. reflexivity. Qed.

Lemma obj_get_set_ne (o : obj) (k k2 : key) (v : value) :
  k2 <> k -> obj_get (obj_set o k v) k2 = obj_get o k2.
Proof. intros H. unfold obj_get. rewrite obj_find_set_ne by exact H. reflexivity. Qed.

Lemma obj_has_set_eq (o : obj) (k : key) (v : value) :
  obj_has (obj_set o k v) k = true.
Proof. unfold obj_has. rewrite obj_find_set_eq. reflexivity. Qed.

Lemma obj_has_set_ne (o : obj) (k k2 : key) (v : value) :
  k2 <> k -> obj_has (obj_set o k v) k2 = obj_has o k2.
Proof. intros H. unfold obj_has. rewrite obj_find_set_ne by exact H. reflexivity. Qed.

Lemma obj_has_in_keys (o : obj) (k : key) :
  obj_has o k = true <-> In k (obj_keys o).
Proof.
  unfold obj_has, obj_keys.
  induction o as [| [k' v'] rest IH]; simpl.
  - split; [discriminate | tauto].
  - destruct (N.eqb_spec k k') as [-> | Hne].
    + split; auto.
    + rewrite IH. split; [auto | intros [H | H]; [congruence | exact H]].
Qed.

(** Writing a key keeps the keys in ascending order. *)
Lemma obj_set_wf (o : obj) (k : key) (v : value) :
  obj_wf o -> obj_wf (obj_set o k v).
Proof.
  unfold obj_wf, obj_keys.
  induction o as [| [k' v'] rest IH]; simpl; [auto |].
  intros [Hhd Htl].
  destruct (N.compare_spec k k') as [Heq | Hlt | Hgt]; simpl.
  - subst k'. split; auto.
  - split; [exact Hlt | split; assumption].
  - split; [| apply IH; exact Htl].
    destruct rest as [| [k'' v''] rest']; simpl; [exact Hgt |].
    destruct (N.compare_spec k k''); simpl; subst; auto.
Qed.

Lemma obj_of_entries_wf (entries : list (key * value)) :
  obj_wf (obj_of_entries entries).
Proof.
  unfold obj_of_entries.
  assert (H : forall o, obj_wf o ->
            obj_wf (fold_left (fun o kv => obj_set o (fst kv) (snd kv)) entries o)).
  { induction entries as [| kv l IH]; simpl; intros o Ho; [exact Ho |].
    apply IH, obj_set_wf, Ho. }
  apply H. exact I.
Qed.

Lemma keys_ascending_lower_bound (k : key) (ks : list key) :
  keys_ascending (k :: ks) -> forall k', In k' ks -> (k < k')%N.
Proof.
  revert k. induction ks as [| k1 rest IH]; intros k Hasc k' Hin.
  - destruct Hin.
  - destruct Hasc as [Hlt Htl]. destruct Hin as [-> | Hin]; [exact Hlt |].
    specialize (IH k1 Htl k' Hin). lia.
Qed.

(** With its keys in ascending order an object holds each key once. *)
Lemma obj_wf_NoDup (o : obj) : obj_wf o -> NoDup (obj_keys o).
Proof.
  unfold obj_wf. generalize (obj_keys o) as ks.
  induction ks as [| k rest IH]; intros Hasc; constructor.
  - intros Hin. pose proof (@keys_ascending_lower_bound _ _ Hasc _ Hin). lia.
  - apply IH. destruct Hasc as [_ Htl]. exact Htl.
Qed.

(** ** Properties of the tracker *)

Section Properties.

Context {P : Platform}.

Lemma top_frame_snoc (s : list obj) (f : obj) : top_frame (s ++ [f]) = Some f.
Proof.
  unfold top_frame. rewrite last_last.
  destruct s; reflexivity.
Qed.

Lemma write_top_frame_snoc (s : list obj) (f f' : obj) :
  write_top_frame (s ++ [f]) (Some f') = s ++ [f'].
Proof. unfold write_top_frame. rewrite removelast_last. reflexivity. Qed.

Lemma write_top_frame_same (s : list obj) :
  write_top_frame s (top_frame s) = s.
Proof.
  destruct s as [| f s']; [reflexivity |].
  unfold top_frame, write_top_frame.
  symmetry. apply app_removelast_last. discriminate.
Qed.

Lemma removelast_write_top_frame (s : list obj) (f' : option obj) :
  (f' = None <-> top_frame s = None) ->
  removelast (write_top_frame s f') = removelast s.
Proof.
  intros H. destruct f' as [f' |]; [| reflexivity].
  destruct s as [| f s'].
  - destruct H as [_ H]. specialize (H eq_refl). discriminate.
  - unfold write_top_frame. apply removelast_last.
Qed.

(** The loop keeps a frame a frame, and no frame no frame. *)
Lemma update_loop_frame_presence (values : obj) (c : obj) (f : option obj)
    (r : UpdateResult) :
  snd (fst (update_loop values (c, f, r))) = None <-> f = None.
Proof.
  revert c f r.
  induction values as [| [k v] rest IH]; intros c f r; simpl; [tauto |].
  destruct (deepArrayEqual v (obj_get c k)); [apply IH |].
  rewrite IH. destruct f as [f |]; [| tauto].
  destruct (obj_has f k); split; discriminate.
Qed.

(** Nothing to do when every entry already matches the cache. *)
Lemma update_loop_unchanged (values : obj) (c : obj) (f : option obj)
    (r : UpdateResult) :
  matches_cache c values -> update_loop values (c, f, r) = (c, f, r).
Proof.
  induction 1 as [| [k v] rest Hkv _ IH]; simpl; [reflexivity |].
  simpl in Hkv. rewrite Hkv. exact IH.
Qed.

Lemma _updateCache_unchanged (st : GLState) (values : obj) :
  matches_cache (cache st) values ->
  _updateCache st values = (st, mkUpdateResult false VUndefined).
Proof.
  intros H. unfold _updateCache.
  rewrite update_loop_unchanged by exact H.
  rewrite write_top_frame_same. destruct st; reflexivity.
Qed.

(** The loop writes the cache only at the keys of [values]. *)
Lemma update_loop_cache_other (values : obj) (c : obj) (f : option obj)
    (r : UpdateResult) (k : key) :
  ~ In k (obj_keys values) ->
  obj_get (fst (fst (update_loop values (c, f, r)))) k = obj_get c k.
Proof.
  revert c f r.
  induction values as [| [k' v] rest IH]; intros c f r Hnot; simpl;
    [reflexivity |].
  simpl in Hnot.
  destruct (deepArrayEqual v (obj_get c k')).
  - apply IH. tauto.
  - rewrite IH by tauto. apply obj_get_set_ne. intros ->. tauto.
Qed.

(** After the loop every entry of [values] matches the cache. *)
Lemma update_loop_synced (values : obj) (c : obj) (f : option obj)
    (r : UpdateResult) :
  NoDup (obj_keys values) ->
  matches_cache (fst (fst (update_loop values (c, f, r)))) values.
Proof.
  unfold matches_cache.
  revert c f r.
  induction values as [| [k v] rest IH]; intros c f r Hnd; simpl;
    [constructor |].
  inversion Hnd as [| ? ? Hnotin Hnd']; subst.
  constructor.
  - simpl. destruct (deepArrayEqual v (obj_get c k)) eqn:E.
    + rewrite update_loop_cache_other by exact Hnotin. exact E.
    + rewrite update_loop_cache_other by exact Hnotin.
      rewrite obj_get_set_eq. apply deepArrayEqual_refl.
  - destruct (deepArrayEqual v (obj_get c k)); apply IH; exact Hnd'.
Qed.

Lemma same_entries_matches (c : obj) (values' values : obj) :
  same_entries values' values -> matches_cache c values ->
  matches_cache c values'.
Proof.
  unfold matches_cache.
  induction 1 as [| [k' v'] [k v] l' l [Hk Hv] _ IH]; intros Hm;
    [constructor |].
  inversion Hm as [| ? ? Hkv Hm']; subst. simpl in *. subst k'.
  constructor; [| apply IH; exact Hm'].
  simpl. eapply deepArrayEqual_trans; eassumption.
Qed.

Lemma _updateCache_synced (st : GLState) (values : obj) :
  obj_wf values -> matches_cache (cache (GLState_updated st values)) values.
Proof.
  intros Hwf. unfold GLState_updated, _updateCache.
  pose proof (@update_loop_synced values (cache st) (top_frame (stateStack st))
                (mkUpdateResult false VUndefined) (obj_wf_NoDup values Hwf)) as H.
  destruct (update_loop values _) as [[c' f'] r']. exact H.
Qed.

Lemma _updateCache_enable (st : GLState) (values : obj) :
  enable (GLState_updated st values) = enable st.
Proof.
  unfold GLState_updated, _updateCache.
  destruct (update_loop values _) as [[c' f'] r']. reflexivity.
Qed.

Lemma _updateCache_program (st : GLState) (values : obj) :
  program (GLState_updated st values) = program st.
Proof.
  unfold GLState_updated, _updateCache.
  destruct (update_loop values _) as [[c' f'] r']. reflexivity.
Qed.

(** An update touches the top frame only. *)
Lemma _updateCache_outer_frames (st : GLState) (values : obj) :
  removelast (stateStack (GLState_updated st values)) =
  removelast (stateStack st).
Proof.
  unfold GLState_updated, _updateCache.
  pose proof (update_loop_frame_presence values (cache st)
                (top_frame (stateStack st)) (mkUpdateResult false VUndefined)) as H.
  destruct (update_loop values _) as [[c' f'] r']. simpl in *.
  apply removelast_write_top_frame.
  rewrite H. tauto.
Qed.

(** *** What the calls do to the context *)

Lemma set_state_same (gl : GL) (st : GLState) :
  state gl = Some st -> set_state gl (Some st) = gl.
Proof. intros H. destruct gl; simpl in *. subst. reflexivity. Qed.

(** A hooked setter around the implementation's own function. *)
Lemma call_set_spy_native (setter : adapter) (name : string)
    (params : list value) (gl : GL) (st : GLState) :
  state gl = Some st ->
  call_set (SetToCache setter (SetNative name)) params gl =
  let ur := _updateCache st (obj_of_entries (setter params)) in
  Returns (oldValue (snd ur))
    (if valueChanged (snd ur)
     then mkContext (nativeSet name params (native gl))
            (calls gl ++ [CallSet name params])
            (getParameter gl) (isEnabled gl) (functions gl) (Some (fst ur))
     else set_state gl (Some (fst ur))).
Proof.
  intros Hst. simpl. unfold updateCache, bind, get_state. rewrite Hst.
  destruct (_updateCache st (obj_of_entries (setter params))) as [st' r].
  simpl. destruct (valueChanged r); reflexivity.
Qed.

(** Whatever it wraps, a hooked setter stops at the cache when the entries
    match it. *)
Lemma call_set_spy_elided (setter : adapter) (orig : SetFn)
    (params : list value) (gl : GL) (st : GLState) :
  state gl = Some st ->
  matches_cache (cache st) (obj_of_entries (setter params)) ->
  call_set (SetToCache setter orig) params gl = Returns VUndefined gl.
Proof.
  intros Hst Hm. simpl. unfold updateCache, bind, get_state. rewrite Hst.
  rewrite _updateCache_unchanged by exact Hm. simpl.
  unfold put_state, ret. rewrite set_state_same by exact Hst. reflexivity.
Qed.

Lemma GLState_push_run (gl : GL) (st : GLState) :
  state gl = Some st ->
  GLState_push gl = Returns tt (set_state gl (Some (GLState_pushed st))).
Proof.
  intros Hst. unfold GLState_push, bind, get_state. rewrite Hst. reflexivity.
Qed.

Lemma GLState_pop_run (gl : GL) (st : GLState) :
  state gl = Some st -> stateStack st <> [] ->
  GLState_pop gl =
  let oldValues := last (stateStack st) [] in
  Returns tt
    (if valueChanged (snd (_updateCache st oldValues))
     then mkContext (nativeRestore oldValues (native gl))
            (calls gl ++ [CallRestore oldValues])
            (getParameter gl) (isEnabled gl) (functions gl)
            (Some (GLState_popped st))
     else set_state gl (Some (GLState_popped st))).
Proof.
  intros Hst Hne.
  unfold GLState_pop, GLState_popped, GLState_updated, bind, get_state.
  rewrite Hst.
  destruct (stateStack st) as [| f0 s0] eqn:Hs; [contradiction |].
  cbn [List.length Nat.ltb Nat.leb assert ret].
  unfold setParameters, updateCache, bind, get_state. rewrite Hst.
  destruct (_updateCache st (last (f0 :: s0) [])) as [st' r].
  cbn [fst snd]. unfold put_state, ret. cbn [state set_state].
  destruct (valueChanged r); reflexivity.
Qed.

Lemma lands_seq {A B} (m : Action A) (k : Action B) (gl : GL)
    (st1 st2 : GLState) :
  lands m gl st1 ->
  (forall gl1, state gl1 = Some st1 -> lands k gl1 st2) ->
  lands (m ;; k) gl st2.
Proof.
  intros (a & gl1 & Hm & Hst1) Hk.
  destruct (Hk gl1 Hst1) as (b & gl2 & Hk' & Hst2).
  exists b, gl2. unfold bind. rewrite Hm. auto.
Qed.

Lemma lands_push (gl : GL) (st : GLState) :
  state gl = Some st -> lands GLState_push gl (GLState_pushed st).
Proof.
  intros Hst. exists tt, (set_state gl (Some (GLState_pushed st))).
  split; [apply GLState_push_run; exact Hst | reflexivity].
Qed.

Lemma lands_set (setter : adapter) (name : string) (params : list value)
    (gl : GL) (st : GLState) :
  state gl = Some st ->
  lands (call_set (SetToCache setter (SetNative name)) params) gl
    (GLState_updated st (obj_of_entries (setter params))).
Proof.
  intros Hst. unfold lands, GLState_updated.
  rewrite (call_set_spy_native setter name params gl st Hst). cbv zeta.
  eexists _, _. split; [reflexivity |].
  destruct (valueChanged _); reflexivity.
Qed.

Lemma lands_pop (gl : GL) (st : GLState) :
  state gl = Some st -> stateStack st <> [] ->
  lands GLState_pop gl (GLState_popped st).
Proof.
  intros Hst Hne. unfold lands.
  rewrite (GLState_pop_run gl st Hst Hne). cbv zeta.
  eexists _, _. split; [reflexivity |].
  destruct (valueChanged _); reflexivity.
Qed.

End Properties.

(** ** The scope stack, the getters and the initializer *)

Section Claims.

Context {P : Platform}.

Lemma GLState_popped_pushed (st : GLState) : GLState_popped (GLState_pushed st) = st.
Proof.
  unfold GLState_popped, GLState_updated, GLState_pushed. simpl.
  rewrite last_last.
  rewrite _updateCache_unchanged by constructor. simpl.
  rewrite removelast_last. destruct st; reflexivity.
Qed.

Lemma set_state_twice (gl : GL) (a b : option GLState) :
  set_state (set_state gl a) b = set_state gl b.
Proof. reflexivity. Qed.

(** C4. [push()] immediately followed by [pop()] changes nothing: the cache,
    the scope stack, the functions and the implementation's state are as
    before, and no call reaches the implementation (the log of calls is
    the same).  This holds for [gl.state.push()], [gl.state.pop()] and for
    the public [pushContextState], [popContextState] alike. *)
Theorem push_pop_identity (gl : GL) (st : GLState) :
  state gl = Some st ->
  (GLState_push ;; GLState_pop) gl = Returns tt gl /\
  (pushContextState ;; popContextState) gl = Returns tt gl.
Proof.
  intros Hst.
  assert (Hcycle : (GLState_push ;; GLState_pop) gl = Returns tt gl).
  { unfold bind at 1. rewrite (GLState_push_run gl st Hst).
    rewrite (GLState_pop_run (set_state gl (Some (GLState_pushed st)))
               (GLState_pushed st) eq_refl)
      by (simpl; intros H; apply app_eq_nil in H; destruct H; discriminate).
    cbv zeta. simpl stateStack. rewrite last_last.
    rewrite _updateCache_unchanged by constructor. simpl.
    rewrite GLState_popped_pushed, set_state_twice.
    rewrite set_state_same by exact Hst. reflexivity. }
  split; [exact Hcycle |].
  unfold pushContextState, popContextState.
  unfold bind in *. rewrite Hst.
  destruct (GLState_push gl) as [[] gl1 | e gl1] eqn:Hpush; [| discriminate].
  rewrite (GLState_push_run gl st Hst) in Hpush.
  injection Hpush as <-. simpl. exact Hcycle.
Qed.

(** C6. [pop()] on an empty scope stack, and [popContextState] on a context
    that was never tracked, stop at their assertion: the call throws and the
    context is left exactly as it was.  In particular [popContextState]
    installs nothing and attaches no state. *)
Theorem pop_precondition_is_fatal :
  (forall (gl : GL) (st : GLState),
      state gl = Some st -> stateStack st = [] ->
      GLState_pop gl = Throws AssertionFailed gl /\
      popContextState gl = Throws AssertionFailed gl) /\
  (forall gl : GL,
      state gl = None -> popContextState gl = Throws AssertionFailed gl).
Proof.
  split.
  - intros gl st Hst Hempty.
    assert (Hpop : GLState_pop gl = Throws AssertionFailed gl).
    { unfold GLState_pop, bind, get_state. rewrite Hst, Hempty. reflexivity. }
    split; [exact Hpop |].
    unfold popContextState, bind. rewrite Hst. simpl. exact Hpop.
  - intros gl Hst. unfold popContextState, bind. rewrite Hst. reflexivity.
Qed.

(** C10. [trackContextState] without options throws a TypeError (it
    destructures [undefined]), and with options that lack [copyState] it
    stops at its assertion.  Both happen before the context is looked at, so
    also on a context that is already tracked, whose [enable] flag is then
    not updated. *)
Theorem trackContextState_requires_copyState (gl : GL) :
  trackContextState None gl = Throws TypeError gl /\
  (forall enable0 : option bool,
      trackContextState (Some (mkOptions enable0 None)) gl =
      Throws AssertionFailed gl).
Proof. split; reflexivity. Qed.

(** C9. [useProgramLuma] with the handle that [gl.state.program] already
    holds returns at once: the context, the log of calls and the cached
    handle are unchanged.  With another handle it calls the function it
    wraps with that handle and then stores the handle in
    [gl.state.program]. *)
Theorem useProgram_short_circuit (orig : SetFn) (handle : value) (gl : GL)
    (st : GLState) :
  state gl = Some st ->
  (strict_eq (program st) handle = true ->
   call_set (UseProgramLuma orig) [handle] gl = Returns VUndefined gl) /\
  (strict_eq (program st) handle = false ->
   call_set (UseProgramLuma orig) [handle] gl =
   (call_set orig [handle] ;;
    st' <- get_state ;;
    put_state (mkGLState handle (stateStack st') (enable st') (cache st')) ;;
    ret VUndefined) gl /\
   forall name : string,
     call_set (UseProgramLuma (SetNative name)) [handle] gl =
     Returns VUndefined
       (mkContext (nativeSet name [handle] (native gl))
          (calls gl ++ [CallSet name [handle]])
          (getParameter gl) (isEnabled gl) (functions gl)
          (Some (mkGLState handle (stateStack st) (enable st) (cache st))))).
Proof.
  intros Hst. split.
  - intros Heq. simpl. unfold bind, get_state. rewrite Hst. simpl.
    rewrite Heq. reflexivity.
  - intros Hne. split.
    + simpl. unfold bind at 1. unfold get_state at 1. rewrite Hst. simpl.
      rewrite Hne. reflexivity.
    + intros name. simpl. unfold bind, get_state. rewrite Hst. simpl.
      rewrite Hne. simpl. rewrite Hst. reflexivity.
Qed.

Lemma not_cached_spec (pname : option key) :
  not_cached pname = true <->
  pname = None \/ exists k, pname = Some k /\ In k NON_CACHE_PARAMETERS.
Proof.
  destruct pname as [k |]; simpl.
  - rewrite existsb_exists. split.
    + intros (k' & Hin & Heq). apply N.eqb_eq in Heq. subst k'.
      right. exists k. auto.
    + intros [H | (k' & Hk & Hin)]; [discriminate |].
      injection Hk as ->. exists k'. split; [exact Hin | apply N.eqb_refl].
  - split; auto.
Qed.

(** C7. A query for [undefined] or for a blacklisted identifier is handed
    to the function the getter wraps and to nothing else.  Around the
    implementation's own function the value returned is the live one, the
    call is logged, and [gl.state] (the cache with it) is as before; the
    result does not depend on the cache, which need not even exist. *)
Theorem getter_bypasses_cache (orig : GetFn) (name : string)
    (pname : option key) (gl : GL) :
  pname = None \/ (exists k, pname = Some k /\ In k NON_CACHE_PARAMETERS) ->
  call_get (GetFromCache orig) pname gl = call_get orig pname gl /\
  call_get (GetFromCache (GetNative name)) pname gl =
  Returns (nativeGet name pname (native gl))
    (mkContext (native gl) (calls gl ++ [CallGet name pname])
       (getParameter gl) (isEnabled gl) (functions gl) (state gl)).
Proof.
  intros H. apply not_cached_spec in H.
  split; simpl; rewrite H; reflexivity.
Qed.

(** *** Setters *)

Lemma update_loop_no_change (values : obj) (c : obj) (f : option obj)
    (r : UpdateResult) :
  valueChanged (snd (update_loop values (c, f, r))) = false ->
  matches_cache c values /\ valueChanged r = false.
Proof.
  revert c f r.
  induction values as [| [k v] rest IH]; intros c f r H; simpl in H.
  - split; [constructor | exact H].
  - destruct (deepArrayEqual v (obj_get c k)) eqn:E.
    + destruct (IH _ _ _ H) as [Hm Hr]. split; [| exact Hr].
      constructor; [exact E | exact Hm].
    + destruct (IH _ _ _ H) as [_ Hr]. discriminate.
Qed.

(** [valueChanged] is false exactly when every entry matched the cache. *)
Lemma valueChanged_false_iff (st : GLState) (values : obj) :
  valueChanged (snd (_updateCache st values)) = false <->
  matches_cache (cache st) values.
Proof.
  split.
  - unfold _updateCache. intros H.
    destruct (update_loop values _) as [[c' f'] r'] eqn:E. simpl in H.
    assert (H' : valueChanged
                   (snd (update_loop values
                           (cache st, top_frame (stateStack st),
                            mkUpdateResult false VUndefined))) = false)
      by (rewrite E; exact H).
    apply update_loop_no_change in H'. tauto.
  - intros H. rewrite _updateCache_unchanged by exact H. reflexivity.
Qed.

Lemma repeat_call_fixed {A} (m : Action A) (gl1 : GL) (a0 : A) :
  m gl1 = Returns a0 gl1 ->
  forall (n : nat) (a : A),
    repeat_call n m a gl1 =
    Returns (match n with O => a | Datatypes.S _ => a0 end) gl1.
Proof.
  intros Hm. induction n as [| n IH]; intros a; simpl; [reflexivity |].
  unfold bind. rewrite Hm, IH. destruct n; reflexivity.
Qed.

(** C1, as amended.  A call of a hooked setter whose entries are deep-equal
    to the cached values (arrays compared element by element, whatever the
    container) returns without calling the function it wraps and leaves the
    context as it is.  Hence, after a first call, any number of further
    calls with the same arguments, or with arguments that give deep-equal
    entries, adds no call: in total the implementation is called once if
    the first call changed a cached value, and not at all if it did not. *)
Theorem setter_repeat_is_elided (setter : adapter) (name : string)
    (orig : SetFn) (params params' : list value) (gl : GL) (st : GLState)
    (n : nat) :
  state gl = Some st ->
  same_entries (obj_of_entries (setter params'))
    (obj_of_entries (setter params)) ->
  (matches_cache (cache st) (obj_of_entries (setter params)) ->
   call_set (SetToCache setter orig) params gl = Returns VUndefined gl) /\
  exists (old : value) (gl1 : GL),
    call_set (SetToCache setter (SetNative name)) params gl = Returns old gl1 /\
    repeat_call n (call_set (SetToCache setter (SetNative name)) params') old gl1 =
    Returns (match n with O => old | Datatypes.S _ => VUndefined end) gl1 /\
    (matches_cache (cache st) (obj_of_entries (setter params)) ->
     calls gl1 = calls gl) /\
    (~ matches_cache (cache st) (obj_of_entries (setter params)) ->
     calls gl1 = calls gl ++ [CallSet name params]).
Proof.
  intros Hst Hsame. split.
  - intros Hm. apply (call_set_spy_elided setter orig params gl st Hst Hm).
  - rewrite (call_set_spy_native setter name params gl st Hst). cbv zeta.
    eexists _, _. split; [reflexivity |].
    pose proof (valueChanged_false_iff st (obj_of_entries (setter params)))
      as Hiff.
    pose proof (_updateCache_synced st (obj_of_entries (setter params))
                  (obj_of_entries_wf _)) as Hsync.
    unfold GLState_updated in Hsync.
    destruct (_updateCache st (obj_of_entries (setter params))) as [st1 r].
    simpl in *.
    split; [| split].
    + apply repeat_call_fixed.
      apply (call_set_spy_elided setter (SetNative name) params' _ st1).
      * destruct (valueChanged r); reflexivity.
      * eapply same_entries_matches; eassumption.
    + intros Hm. apply Hiff in Hm. rewrite Hm. reflexivity.
    + intros Hnm. destruct (valueChanged r); [reflexivity |].
      exfalso. apply Hnm, Hiff. reflexivity.
Qed.

(** C8. With [gl.state.enable] false, a query for a cacheable identifier
    returns what the implementation returns now, also when the cache has an
    entry for it (which is then left alone; without an entry the cache is
    first filled by a live read).  The setters do not look at the flag: a
    call whose entries match the cache is still elided, and any call still
    goes through [_updateCache], after which the cache matches the
    entries and the flag is still false. *)
Theorem disabled_tracking (name : string) (k : key) (gl : GL) (st : GLState) :
  state gl = Some st -> enable st = false -> ~ In k NON_CACHE_PARAMETERS ->
  let live := nativeGet name (Some k) (native gl) in
  call_get (GetFromCache (GetNative name)) (Some k) gl =
  Returns live
    (if obj_has (cache st) k
     then mkContext (native gl) (calls gl ++ [CallGet name (Some k)])
            (getParameter gl) (isEnabled gl) (functions gl) (Some st)
     else mkContext (native gl)
            ((calls gl ++ [CallGet name (Some k)]) ++ [CallGet name (Some k)])
            (getParameter gl) (isEnabled gl) (functions gl)
            (Some (mkGLState (program st) (stateStack st) false
                     (obj_set (cache st) k live)))) /\
  (forall (setter : adapter) (orig : SetFn) (params : list value),
      matches_cache (cache st) (obj_of_entries (setter params)) ->
      call_set (SetToCache setter orig) params gl = Returns VUndefined gl) /\
  (forall (setter : adapter) (sname : string) (params : list value),
      exists (old : value) (gl' : GL) (st' : GLState),
        call_set (SetToCache setter (SetNative sname)) params gl =
        Returns old gl' /\
        state gl' = Some st' /\
        st' = GLState_updated st (obj_of_entries (setter params)) /\
        enable st' = false /\
        matches_cache (cache st') (obj_of_entries (setter params))).
Proof.
  intros Hst Hen Hnot live. split; [| split].
  - assert (Hnc : not_cached (Some k) = false).
    { destruct (not_cached (Some k)) eqn:E; [| reflexivity].
      apply not_cached_spec in E. destruct E as [E | (k' & Hk & Hin)].
      - discriminate.
      - injection Hk as ->. contradiction. }
    cbn [call_get]. rewrite Hnc.
    unfold bind, get_state. rewrite Hst.
    destruct (obj_has (cache st) k) eqn:Hhas; simpl.
    + rewrite Hst, Hen. unfold native_get. rewrite Hst. reflexivity.
    + rewrite Hst. simpl. rewrite Hen. reflexivity.
  - intros setter orig params Hm.
    apply (call_set_spy_elided setter orig params gl st Hst Hm).
  - intros setter sname params.
    destruct (lands_set setter sname params gl st Hst) as (old & gl' & Hrun & Hst').
    exists old, gl', (GLState_updated st (obj_of_entries (setter params))).
    repeat split; auto.
    + rewrite _updateCache_enable. exact Hen.
    + apply _updateCache_synced, obj_of_entries_wf.
Qed.

(** *** Scopes *)

Lemma GLState_updated_single (st : GLState) (s : list obj) (f : obj)
    (A : key) (v : value) :
  stateStack st = s ++ [f] ->
  GLState_updated st [(A, v)] =
  if deepArrayEqual v (obj_get (cache st) A) then st
  else mkGLState (program st)
         (s ++ [if obj_has f A then f else obj_set f A (obj_get (cache st) A)])
         (enable st) (obj_set (cache st) A v).
Proof.
  intros Hs. unfold GLState_updated, _updateCache.
  rewrite Hs, top_frame_snoc. cbn [update_loop update_entry].
  destruct (deepArrayEqual v (obj_get (cache st) A)).
  - rewrite write_top_frame_snoc. destruct st; simpl in *. subst. reflexivity.
  - destruct (obj_has f A); rewrite write_top_frame_snoc; reflexivity.
Qed.

Lemma GLState_popped_frame (st : GLState) (s : list obj) (f : obj) :
  stateStack st = s ++ [f] ->
  GLState_popped st =
  mkGLState (program st) s (enable st) (cache (GLState_updated st f)).
Proof.
  intros Hs. unfold GLState_popped.
  rewrite _updateCache_outer_frames, _updateCache_program, _updateCache_enable.
  rewrite Hs, last_last, removelast_last. reflexivity.
Qed.

Lemma in_scope_pushed (st : GLState) (A : key) :
  in_scope (stateStack st) (cache st) A (GLState_pushed st).
Proof. split; [left; split; reflexivity | reflexivity]. Qed.

(** Setting [A] again keeps the scope's record of [A]. *)
Lemma in_scope_updated (s0 : list obj) (c0 : obj) (A : key) (v : value)
    (st : GLState) :
  in_scope s0 c0 A st -> in_scope s0 c0 A (GLState_updated st [(A, v)]).
Proof.
  intros [[[Hs HA] | Hs] Hother];
    rewrite (GLState_updated_single st _ _ A v Hs);
    destruct (deepArrayEqual v (obj_get (cache st) A)) eqn:E.
  - split; [left; auto | exact Hother].
  - split; [right; simpl; rewrite HA; reflexivity |].
    intros k Hk. simpl. rewrite obj_get_set_ne by exact Hk. auto.
  - split; [right; exact Hs | exact Hother].
  - split.
    + right. simpl. unfold obj_has. simpl. rewrite N.eqb_refl. reflexivity.
    + intros k Hk. simpl. rewrite obj_get_set_ne by exact Hk. auto.
Qed.

(** Leaving the scope puts the stack back and brings [A] back to a value
    deep-equal to the old one. *)
Lemma in_scope_popped (s0 : list obj) (c0 : obj) (A : key) (st : GLState) :
  in_scope s0 c0 A st ->
  stateStack (GLState_popped st) = s0 /\
  deepArrayEqual (obj_get (cache (GLState_popped st)) A) (obj_get c0 A) = true /\
  (forall k, k <> A ->
     obj_get (cache (GLState_popped st)) k = obj_get c0 k).
Proof.
  intros [[[Hs HA] | Hs] Hother]; rewrite (GLState_popped_frame st _ _ Hs);
    cbn [stateStack cache].
  - unfold GLState_updated. rewrite _updateCache_unchanged by constructor.
    cbn [fst]. rewrite HA, deepArrayEqual_refl. auto.
  - rewrite (GLState_updated_single st _ _ A _ Hs).
    destruct (deepArrayEqual (obj_get c0 A) (obj_get (cache st) A)) eqn:E.
    + rewrite deepArrayEqual_sym, E. auto.
    + cbn [cache]. rewrite obj_get_set_eq, deepArrayEqual_refl.
      repeat split; auto.
      intros k Hk. rewrite obj_get_set_ne by exact Hk. auto.
Qed.

Lemma in_scope_popped_exact (s0 : list obj) (c0 : obj) (A : key)
    (st : GLState) :
  in_scope s0 c0 A st ->
  deepArrayEqual (obj_get c0 A) (obj_get (cache st) A) = false \/
  stateStack st = s0 ++ [[]] ->
  obj_get (cache (GLState_popped st)) A = obj_get c0 A.
Proof.
  intros [[[Hs HA] | Hs] Hother] Hcase;
    rewrite (GLState_popped_frame st _ _ Hs); cbn [cache].
  - unfold GLState_updated. rewrite _updateCache_unchanged by constructor.
    exact HA.
  - destruct Hcase as [Hne | Hs'].
    + rewrite (GLState_updated_single st _ _ A _ Hs), Hne. cbn [cache].
      apply obj_get_set_eq.
    + rewrite Hs in Hs'. apply app_inv_head in Hs'. discriminate.
Qed.

Lemma in_scope_frame (s0 : list obj) (c0 : obj) (A : key) (st : GLState) :
  in_scope s0 c0 A st ->
  let frame := last (stateStack st) [] in
  stateStack st = s0 ++ [frame] /\
  (frame = [] \/ frame = [(A, obj_get c0 A)]).
Proof.
  intros [[[Hs _] | Hs] _]; simpl; rewrite Hs, last_last; auto.
Qed.

(** What a frame has recorded stays as recorded, and a frame keeps its
    keys in order. *)
Lemma update_loop_frame_keeps (values : obj) (c : obj) (f : obj)
    (r : UpdateResult) :
  exists f',
    snd (fst (update_loop values (c, Some f, r))) = Some f' /\
    (forall k, obj_has f k = true -> obj_find f' k = obj_find f k) /\
    (obj_wf f -> obj_wf f').
Proof.
  revert c f r.
  induction values as [| [k v] rest IH]; intros c f r; simpl.
  - exists f. auto.
  - destruct (deepArrayEqual v (obj_get c k)); [apply IH |].
    destruct (obj_has f k) eqn:Hhas; [apply IH |].
    destruct (IH (obj_set c k v) (obj_set f k (obj_get c k))
                (mkUpdateResult true (obj_get c k))) as (f' & Hf' & Hkeep & Hwf).
    exists f'. split; [exact Hf' | split].
    + intros k0 Hk0.
      assert (Hne : k0 <> k) by (intros ->; congruence).
      rewrite Hkeep by (rewrite obj_has_set_ne; assumption).
      apply obj_find_set_ne. exact Hne.
    + intros Hf. apply Hwf, obj_set_wf, Hf.
Qed.

Lemma GLState_updated_frame (st : GLState) (values : obj) (s : list obj)
    (f : obj) :
  stateStack st = s ++ [f] ->
  exists f',
    stateStack (GLState_updated st values) = s ++ [f'] /\
    (forall k, obj_has f k = true -> obj_find f' k = obj_find f k) /\
    (obj_wf f -> NoDup (obj_keys f')).
Proof.
  intros Hs. unfold GLState_updated, _updateCache.
  rewrite Hs, top_frame_snoc.
  destruct (update_loop_frame_keeps values (cache st) f
              (mkUpdateResult false VUndefined)) as (f' & Hf' & Hkeep & Hwf).
  destruct (update_loop values _) as [[c' f''] r']. simpl in Hf'. subst f''.
  exists f'. cbn [fst stateStack]. rewrite write_top_frame_snoc.
  repeat split; auto.
  intros Hf. apply obj_wf_NoDup, Hwf, Hf.
Qed.

Lemma recorded_stays (st : GLState) (s0 : list obj) (A : key) (x v : value) :
  stateStack st = s0 ++ [[(A, x)]] ->
  stateStack (GLState_updated st [(A, v)]) = s0 ++ [[(A, x)]].
Proof.
  intros Hs. rewrite (GLState_updated_single st _ _ A v Hs).
  destruct (deepArrayEqual v (obj_get (cache st) A)); [exact Hs |].
  cbn [stateStack]. unfold obj_has. simpl. rewrite N.eqb_refl. reflexivity.
Qed.

Lemma snoc_not_nil {A} (s : list A) (x : A) : s ++ [x] <> [].
Proof. intros H. apply app_eq_nil in H. destruct H. discriminate. Qed.

Lemma valueChanged_single (st : GLState) (A : key) (v : value) :
  valueChanged (snd (_updateCache st [(A, v)])) =
  negb (deepArrayEqual v (obj_get (cache st) A)).
Proof.
  unfold _updateCache. cbn [update_loop update_entry].
  destruct (deepArrayEqual v (obj_get (cache st) A)); reflexivity.
Qed.

(** A hooked setter around the implementation's own function: where it
    leaves [gl.state], the log and the implementation. *)
Lemma call_set_spy_native_log (setter : adapter) (name : string)
    (params : list value) (gl : GL) (st : GLState) :
  state gl = Some st ->
  exists old gl',
    call_set (SetToCache setter (SetNative name)) params gl = Returns old gl' /\
    state gl' = Some (GLState_updated st (obj_of_entries (setter params))) /\
    calls gl' =
    calls gl ++
    (if valueChanged (snd (_updateCache st (obj_of_entries (setter params))))
     then [CallSet name params] else []) /\
    native gl' =
    (if valueChanged (snd (_updateCache st (obj_of_entries (setter params))))
     then nativeSet name params (native gl) else native gl).
Proof.
  intros Hst. rewrite (call_set_spy_native setter name params gl st Hst).
  cbv zeta. unfold GLState_updated. eexists _, _. split; [reflexivity |].
  destruct (valueChanged _); cbn [state calls native set_state];
    rewrite ?app_nil_r; auto.
Qed.

(** [pop()]: where it leaves [gl.state], the log and the implementation. *)
Lemma GLState_pop_log (gl : GL) (st : GLState) :
  state gl = Some st -> stateStack st <> [] ->
  exists gl',
    GLState_pop gl = Returns tt gl' /\
    state gl' = Some (GLState_popped st) /\
    calls gl' =
    calls gl ++
    (if valueChanged (snd (_updateCache st (last (stateStack st) [])))
     then [CallRestore (last (stateStack st) [])] else []) /\
    native gl' =
    (if valueChanged (snd (_updateCache st (last (stateStack st) [])))
     then nativeRestore (last (stateStack st) []) (native gl) else native gl).
Proof.
  intros Hst Hne. rewrite (GLState_pop_run gl st Hst Hne). cbv zeta.
  eexists. split; [reflexivity |].
  destruct (valueChanged _); cbn [state calls native set_state];
    rewrite ?app_nil_r; auto.
Qed.

(** The run of [push(); set A v1; set A v2; pop()] call by call: what the
    cache holds for [A] after each set, which calls reach the
    implementation, and whether the pop issues a restore. *)
Lemma two_sets_in_scope_log (setter : adapter) (name : string)
    (p1 p2 : list value) (A : key) (v1 v2 : value) (gl : GL) (st : GLState) :
  state gl = Some st -> setter p1 = [(A, v1)] -> setter p2 = [(A, v2)] ->
  let set := call_set (SetToCache setter (SetNative name)) in
  let v0 := obj_get (cache st) A in
  let c1 := if deepArrayEqual v1 v0 then v0 else v1 in
  let c2 := if deepArrayEqual v2 c1 then c1 else v2 in
  let s2a := GLState_updated (GLState_pushed st) [(A, v1)] in
  let s2 := GLState_updated s2a [(A, v2)] in
  exists (old2 : value) (gl2 gl3 : GL),
    obj_get (cache s2a) A = c1 /\
    deepArrayEqual c1 v1 = true /\
    (GLState_push ;; set p1 ;; set p2) gl = Returns old2 gl2 /\
    state gl2 = Some s2 /\
    obj_get (cache s2) A = c2 /\
    deepArrayEqual c2 v2 = true /\
    calls gl2 =
    calls gl ++
    (if deepArrayEqual v1 v0 then [] else [CallSet name p1]) ++
    (if deepArrayEqual v2 c1 then [] else [CallSet name p2]) /\
    GLState_pop gl2 = Returns tt gl3 /\
    (GLState_push ;; set p1 ;; set p2 ;; GLState_pop) gl = Returns tt gl3 /\
    state gl3 = Some (GLState_popped s2) /\
    calls gl3 =
    calls gl2 ++
    (if deepArrayEqual v2 v0 then [] else [CallRestore [(A, v0)]]) /\
    native gl3 =
    (if deepArrayEqual v2 v0 then native gl2
     else nativeRestore [(A, v0)] (native gl2)).
Proof.
  intros Hst Hp1 Hp2 set v0 c1 c2 s2a s2.
  set (s1 := GLState_pushed st) in *.
  (* the cache after each set *)
  assert (Hc1 : obj_get (cache s2a) A = c1).
  { unfold s2a, c1.
    rewrite (GLState_updated_single s1 (stateStack st) [] A v1 eq_refl).
    cbn [cache s1 GLState_pushed]. fold v0.
    destruct (deepArrayEqual v1 v0); [reflexivity | apply obj_get_set_eq]. }
  assert (Hc1v : deepArrayEqual c1 v1 = true).
  { unfold c1. destruct (deepArrayEqual v1 v0) eqn:E;
      [rewrite deepArrayEqual_sym; exact E | apply deepArrayEqual_refl]. }
  destruct (in_scope_frame _ _ _ _
              (in_scope_updated _ _ A v1 _ (in_scope_pushed st A)))
    as [Hs2a _]. fold s1 s2a in Hs2a.
  assert (Hc2 : obj_get (cache s2) A = c2).
  { unfold s2, c2. rewrite (GLState_updated_single s2a _ _ A v2 Hs2a), Hc1.
    destruct (deepArrayEqual v2 c1); [exact Hc1 | apply obj_get_set_eq]. }
  assert (Hc2v : deepArrayEqual c2 v2 = true).
  { unfold c2. destruct (deepArrayEqual v2 c1) eqn:E;
      [rewrite deepArrayEqual_sym; exact E | apply deepArrayEqual_refl]. }
  (* the three calls before the pop *)
  pose proof (GLState_push_run gl st Hst) as Hpush. fold s1 in Hpush.
  destruct (call_set_spy_native_log setter name p1
              (set_state gl (Some s1)) s1 eq_refl)
    as (old1 & glb & Hset1 & Hstb & Hcallsb & Hnatb).
  rewrite Hp1 in Hstb, Hcallsb, Hnatb.
  change (obj_of_entries [(A, v1)]) with [(A, v1)] in Hstb, Hcallsb, Hnatb.
  fold s2a in Hstb. rewrite valueChanged_single in Hcallsb, Hnatb.
  cbn [cache s1 GLState_pushed calls set_state] in Hcallsb. fold v0 in Hcallsb.
  destruct (call_set_spy_native_log setter name p2 glb s2a Hstb)
    as (old2 & gl2 & Hset2 & Hst2 & Hcalls2 & Hnat2).
  rewrite Hp2 in Hst2, Hcalls2, Hnat2.
  change (obj_of_entries [(A, v2)]) with [(A, v2)] in Hst2, Hcalls2, Hnat2.
  fold s2 in Hst2. rewrite valueChanged_single, Hc1 in Hcalls2, Hnat2.
  assert (Hrun2 : (GLState_push ;; set p1 ;; set p2) gl = Returns old2 gl2).
  { unfold bind, set. rewrite Hpush, Hset1. exact Hset2. }
  (* the pop *)
  destruct (in_scope_frame _ _ _ _
              (in_scope_updated _ _ A v2 _
                 (in_scope_updated _ _ A v1 _ (in_scope_pushed st A))))
    as [Hs2 Hframe]. fold s1 s2a s2 v0 in Hs2, Hframe. cbv zeta in Hs2, Hframe.
  assert (Hne2 : stateStack s2 <> []) by (rewrite Hs2; apply snoc_not_nil).
  destruct (GLState_pop_log gl2 s2 Hst2 Hne2)
    as (gl3 & Hpop & Hst3 & Hcalls3 & Hnat3).
  assert (Hrestore :
            (deepArrayEqual v2 v0 = true /\
             valueChanged (snd (_updateCache s2 (last (stateStack s2) []))) =
             false) \/
            (deepArrayEqual v2 v0 = false /\
             last (stateStack s2) [] = [(A, v0)] /\
             valueChanged (snd (_updateCache s2 (last (stateStack s2) []))) =
             true)).
  { destruct Hframe as [Hf | Hf]; rewrite Hf.
    - (* nothing was recorded: neither set changed the cache *)
      left. split; [| rewrite _updateCache_unchanged by constructor; reflexivity].
      assert (Hf2a : last (stateStack s2a) [] = []).
      { revert Hf. unfold s2.
        rewrite (GLState_updated_single s2a _ _ A v2 Hs2a).
        destruct (deepArrayEqual v2 (obj_get (cache s2a) A)); [auto |].
        cbn [stateStack]. rewrite last_last.
        destruct (obj_has (last (stateStack s2a) []) A) eqn:Hh; [auto |].
        intros Hbad. exfalso.
        assert (Hx : obj_has (obj_set (last (stateStack s2a) []) A
                                (obj_get (cache s2a) A)) A = true)
          by apply obj_has_set_eq.
        rewrite Hbad in Hx. discriminate Hx. }
      assert (E1 : deepArrayEqual v1 v0 = true).
      { revert Hf2a. unfold s2a.
        rewrite (GLState_updated_single s1 (stateStack st) [] A v1 eq_refl).
        cbn [cache s1 GLState_pushed]. fold v0.
        destruct (deepArrayEqual v1 v0); [reflexivity |].
        cbn [stateStack]. rewrite last_last. discriminate. }
      assert (E2 : deepArrayEqual v2 c1 = true).
      { revert Hf. unfold s2.
        rewrite (GLState_updated_single s2a _ _ A v2 Hs2a), Hc1.
        destruct (deepArrayEqual v2 c1); [reflexivity |].
        cbn [stateStack]. rewrite last_last, Hf2a. discriminate. }
      unfold c1 in E2. rewrite E1 in E2. exact E2.
    - rewrite valueChanged_single, Hc2.
      destruct (deepArrayEqual v2 v0) eqn:E20.
      + left. split; [reflexivity |].
        rewrite deepArrayEqual_sym.
        rewrite (deepArrayEqual_trans _ _ _ Hc2v E20). reflexivity.
      + right. split; [reflexivity |]. split; [reflexivity |].
        destruct (deepArrayEqual v0 c2) eqn:E0; [| reflexivity].
        rewrite deepArrayEqual_sym in Hc2v.
        rewrite deepArrayEqual_sym in E0.
        rewrite (deepArrayEqual_trans _ _ _ Hc2v E0) in E20. discriminate. }
  exists old2, gl2, gl3.
  split; [exact Hc1 |]. split; [exact Hc1v |]. split; [exact Hrun2 |].
  split; [exact Hst2 |]. split; [exact Hc2 |]. split; [exact Hc2v |].
  split.
  { rewrite Hcalls2, Hcallsb, <- app_assoc.
    destruct (deepArrayEqual v1 v0), (deepArrayEqual v2 c1); reflexivity. }
  split; [exact Hpop |].
  split.
  { unfold bind, set. rewrite Hpush, Hset1.
    fold (set p2). unfold set. rewrite Hset2. exact Hpop. }
  split; [exact Hst3 |].
  destruct Hrestore as [[E Hch] | (E & Hf & Hch)];
    rewrite Hch in Hcalls3, Hnat3; rewrite E.
  - split; assumption.
  - rewrite Hf in Hcalls3, Hnat3. split; assumption.
Qed.

(** C2. Within one scope the frame records, for an identifier, the value it
    had before its first change and keeps that record.  In the run of
    [push()], a set of [A] to [v1], a set of [A] to [v2] and [pop()]: after
    the first set the cache holds for [A] a value deep-equal to [v1]
    ([v1] itself if it differed from [v0]); after the second, one
    deep-equal to [v2]; each set that changed the cache reached the
    implementation, and no other call did.  The frame is then empty or
    holds the single record [A -> v0], whatever [v1] and [v2] were.  The
    pop issues a restore of [A -> v0] exactly when [v2] is not deep-equal
    to [v0]; after it [A] is back at [v0] (a value deep-equal to [v0], and
    [v0] itself unless [v2] was already deep-equal to it) and not at [v1],
    the scope stack is as before and the other identifiers read as before.
    In general an update never rewrites a record of the top frame, and the
    frame holds each identifier at most once. *)
Theorem scope_first_write_wins (setter : adapter) (name : string)
    (p1 p2 : list value) (A : key) (v1 v2 : value) (gl : GL) (st : GLState) :
  state gl = Some st -> setter p1 = [(A, v1)] -> setter p2 = [(A, v2)] ->
  let set := call_set (SetToCache setter (SetNative name)) in
  let v0 := obj_get (cache st) A in
  let c1 := if deepArrayEqual v1 v0 then v0 else v1 in
  let c2 := if deepArrayEqual v2 c1 then c1 else v2 in
  (exists (st2 st3 : GLState) (frame : obj),
      lands (GLState_push ;; set p1 ;; set p2) gl st2 /\
      stateStack st2 = stateStack st ++ [frame] /\
      (frame = [] \/ frame = [(A, v0)]) /\
      (deepArrayEqual v1 v0 = false -> frame = [(A, v0)]) /\
      lands (GLState_push ;; set p1 ;; set p2 ;; GLState_pop) gl st3 /\
      stateStack st3 = stateStack st /\
      deepArrayEqual (obj_get (cache st3) A) v0 = true /\
      (deepArrayEqual v1 v0 = false ->
       deepArrayEqual (obj_get (cache st3) A) v1 = false) /\
      (deepArrayEqual v2 v0 = false -> obj_get (cache st3) A = v0) /\
      (forall k, k <> A -> obj_get (cache st3) k = obj_get (cache st) k) /\
      exists (st1 : GLState) (old2 : value) (gl2 gl3 : GL),
        lands (GLState_push ;; set p1) gl st1 /\
        obj_get (cache st1) A = c1 /\
        deepArrayEqual c1 v1 = true /\
        (GLState_push ;; set p1 ;; set p2) gl = Returns old2 gl2 /\
        state gl2 = Some st2 /\
        obj_get (cache st2) A = c2 /\
        deepArrayEqual c2 v2 = true /\
        calls gl2 =
        calls gl ++
        (if deepArrayEqual v1 v0 then [] else [CallSet name p1]) ++
        (if deepArrayEqual v2 c1 then [] else [CallSet name p2]) /\
        GLState_pop gl2 = Returns tt gl3 /\
        (GLState_push ;; set p1 ;; set p2 ;; GLState_pop) gl = Returns tt gl3 /\
        state gl3 = Some st3 /\
        calls gl3 =
        calls gl2 ++
        (if deepArrayEqual v2 v0 then [] else [CallRestore [(A, v0)]]) /\
        native gl3 =
        (if deepArrayEqual v2 v0 then native gl2
         else nativeRestore [(A, v0)] (native gl2))) /\
  (forall (st0 : GLState) (values : obj) (s : list obj) (f : obj),
      stateStack st0 = s ++ [f] ->
      exists f',
        stateStack (GLState_updated st0 values) = s ++ [f'] /\
        (forall k, obj_has f k = true -> obj_find f' k = obj_find f k) /\
        (obj_wf f -> NoDup (obj_keys f'))).
Proof.
  intros Hst Hp1 Hp2 set v0 c1 c2.
  pose proof (two_sets_in_scope_log setter name p1 p2 A v1 v2 gl st
                Hst Hp1 Hp2) as Hlog.
  cbv zeta in Hlog. fold set v0 c1 c2 in Hlog.
  subst c2 c1 v0.
  split; [| apply GLState_updated_frame].
  set (s1 := GLState_pushed st).
  set (s2a := GLState_updated s1 [(A, v1)]).
  set (s2 := GLState_updated s2a [(A, v2)]).
  assert (Hin2a : in_scope (stateStack st) (cache st) A s2a)
    by apply in_scope_updated, in_scope_pushed.
  assert (Hin2 : in_scope (stateStack st) (cache st) A s2)
    by apply in_scope_updated, Hin2a.
  destruct (in_scope_frame _ _ _ _ Hin2) as [Hstack Hframe].
  destruct (in_scope_popped _ _ _ _ Hin2) as (Hpop_stack & Hpop_A & Hpop_other).
  assert (Hlands2 : lands (GLState_push ;; set p1 ;; set p2) gl s2).
  { apply lands_seq with (st1 := s1); [apply lands_push, Hst |].
    intros gl1 H1. apply lands_seq with (st1 := s2a).
    - pose proof (lands_set setter name p1 gl1 s1 H1) as H.
      rewrite Hp1 in H. exact H.
    - intros gl2 H2. pose proof (lands_set setter name p2 gl2 s2a H2) as H.
      rewrite Hp2 in H. exact H. }
  assert (Hlands3 :
            lands (GLState_push ;; set p1 ;; set p2 ;; GLState_pop) gl
              (GLState_popped s2)).
  { apply lands_seq with (st1 := s1); [apply lands_push, Hst |].
    intros gl1 H1. apply lands_seq with (st1 := s2a).
    - pose proof (lands_set setter name p1 gl1 s1 H1) as H.
      rewrite Hp1 in H. exact H.
    - intros gl2 H2. apply lands_seq with (st1 := s2).
      + pose proof (lands_set setter name p2 gl2 s2a H2) as H.
        rewrite Hp2 in H. exact H.
      + intros gl3 H3. apply lands_pop; [exact H3 |].
        rewrite Hstack. apply snoc_not_nil. }
  assert (Hlands1 : lands (GLState_push ;; set p1) gl s2a).
  { apply lands_seq with (st1 := s1); [apply lands_push, Hst |].
    intros gl1 H1. pose proof (lands_set setter name p1 gl1 s1 H1) as H.
    rewrite Hp1 in H. exact H. }
  exists s2, (GLState_popped s2), (last (stateStack s2) []).
  split; [exact Hlands2 |]. split; [exact Hstack |]. split; [exact Hframe |].
  split; [| split; [exact Hlands3 |]; split; [exact Hpop_stack |];
            split; [exact Hpop_A |]; split; [| split; [| split;
              [exact Hpop_other |]]]].
  - intros Hne.
    assert (H2a : stateStack s2a =
                  stateStack st ++ [[(A, obj_get (cache st) A)]]).
    { unfold s2a.
      rewrite (GLState_updated_single s1 (stateStack st) [] A v1 eq_refl).
      cbn [cache s1 GLState_pushed]. rewrite Hne. reflexivity. }
    unfold s2. rewrite (recorded_stays s2a _ A _ v2 H2a).
    apply last_last.
  - intros Hne.
    destruct (deepArrayEqual (obj_get (cache (GLState_popped s2)) A) v1) eqn:E;
      [| reflexivity].
    rewrite deepArrayEqual_sym in E.
    rewrite (deepArrayEqual_trans _ _ _ E Hpop_A) in Hne. discriminate.
  - intros Hne. apply (in_scope_popped_exact _ _ _ _ Hin2). left.
    pose proof (_updateCache_synced s2a [(A, v2)]) as Hsync.
    fold s2 in Hsync.
    assert (Hwf : obj_wf [(A, v2)]) by (split; exact I).
    specialize (Hsync Hwf). inversion Hsync as [| ? ? Hv2 _]; subst.
    cbn [fst snd] in Hv2.
    destruct (deepArrayEqual (obj_get (cache st) A) (obj_get (cache s2) A)) eqn:E;
      [| reflexivity].
    rewrite deepArrayEqual_sym in E.
    rewrite (deepArrayEqual_trans _ _ _ Hv2 E) in Hne.
    discriminate.
  - fold s1 s2a s2 in Hlog.
    destruct Hlog as (old2 & gl2 & gl3 & H1 & H2 & H3 & H4 & H5 & H6 & H7 &
                      H8 & H9 & H10 & H11 & H12).
    exists s2a, old2, gl2, gl3.
    repeat (split; [assumption |]). assumption.
Qed.


Lemma GLState_popped_stack (st : GLState) :
  stateStack (GLState_popped st) = removelast (stateStack st).
Proof. unfold GLState_popped. cbn [stateStack]. apply _updateCache_outer_frames. Qed.

(** A scope with a single set in it puts everything back as it was. *)
Lemma single_set_scope (st : GLState) (A : key) (v : value) :
  let st' := GLState_popped (GLState_updated (GLState_pushed st) [(A, v)]) in
  stateStack st' = stateStack st /\
  (forall k, obj_get (cache st') k = obj_get (cache st) k).
Proof.
  cbv zeta.
  pose proof (in_scope_updated _ _ A v _ (in_scope_pushed st A)) as Hin.
  destruct (in_scope_popped _ _ _ _ Hin) as (Hstack & _ & Hother).
  split; [exact Hstack |].
  intros k. destruct (N.eq_dec k A) as [-> | Hne]; [| apply Hother, Hne].
  apply (in_scope_popped_exact _ _ _ _ Hin).
  rewrite (GLState_updated_single (GLState_pushed st) (stateStack st) [] A v
             eq_refl).
  cbn [cache GLState_pushed].
  destruct (deepArrayEqual v (obj_get (cache st) A)) eqn:E.
  - right. reflexivity.
  - left. cbn [cache]. rewrite obj_get_set_eq, deepArrayEqual_sym. exact E.
Qed.

Lemma in_scope_transfer (s0 : list obj) (c0 : obj) (A : key)
    (st st' : GLState) :
  in_scope s0 c0 A st ->
  stateStack st' = stateStack st ->
  (forall k, obj_get (cache st') k = obj_get (cache st) k) ->
  in_scope s0 c0 A st'.
Proof.
  intros [Hframe Hother] Hs Hc. split.
  - rewrite Hs, Hc. exact Hframe.
  - intros k Hk. rewrite Hc. apply Hother, Hk.
Qed.

(** C3, as amended.  Scopes nest: after [push()], a set of [A] to [v1],
    [push()], a set of [A] to [v2] and [pop()], [A] is cached as it was
    after the first set (a value deep-equal to [v1], and [v1] itself when
    the first set was a change) and the scope stack, the outer frame
    included, is as it was before the inner push; after a second [pop()]
    [A] is cached as [v0] and the stack is the original one.  [pop()]
    applies the top frame while that frame is still on the stack and only
    then removes it; whatever the frame holds, the frames below it are left
    as they were. *)
Theorem nested_scopes_restore_by_level (setter : adapter) (name : string)
    (p1 p2 : list value) (A : key) (v1 v2 : value) (gl : GL) (st : GLState) :
  state gl = Some st -> setter p1 = [(A, v1)] -> setter p2 = [(A, v2)] ->
  let set := call_set (SetToCache setter (SetNative name)) in
  let v0 := obj_get (cache st) A in
  (exists s1 s2 s3 : GLState,
      lands (GLState_push ;; set p1) gl s1 /\
      lands (GLState_push ;; set p1 ;; GLState_push ;; set p2 ;; GLState_pop)
        gl s2 /\
      lands (GLState_push ;; set p1 ;; GLState_push ;; set p2 ;; GLState_pop ;;
             GLState_pop) gl s3 /\
      deepArrayEqual (obj_get (cache s2) A) v1 = true /\
      (deepArrayEqual v1 v0 = false -> obj_get (cache s2) A = v1) /\
      stateStack s2 = stateStack s1 /\
      obj_get (cache s3) A = v0 /\
      stateStack s3 = stateStack st) /\
  (forall (gl0 : GL) (st0 : GLState),
      state gl0 = Some st0 -> stateStack st0 <> [] ->
      GLState_pop gl0 =
      (setParameters (last (stateStack st0) []) ;;
       this' <- get_state ;;
       put_state
         (mkGLState (program this') (removelast (stateStack this'))
            (enable this') (cache this'))) gl0 /\
      exists st', lands GLState_pop gl0 st' /\
                  stateStack st' = removelast (stateStack st0)).
Proof.
  intros Hst Hp1 Hp2 set v0. subst v0. split.
  - set (s0 := GLState_pushed st).
    set (s1 := GLState_updated s0 [(A, v1)]).
    set (s1a := GLState_updated (GLState_pushed s1) [(A, v2)]).
    set (s2 := GLState_popped s1a).
    assert (Hin1 : in_scope (stateStack st) (cache st) A s1)
      by apply in_scope_updated, in_scope_pushed.
    destruct (single_set_scope s1 A v2) as [Hs2 Hc2]. fold s1a s2 in Hs2, Hc2.
    assert (Hin2 : in_scope (stateStack st) (cache st) A s2)
      by (apply (in_scope_transfer _ _ _ s1); assumption).
    destruct (in_scope_frame _ _ _ _ Hin1) as [Hstack1 _].
    assert (Hne2 : stateStack s2 <> [])
      by (rewrite Hs2, Hstack1; apply snoc_not_nil).
    assert (Hne1a : stateStack s1a <> []).
    { destruct (GLState_updated_frame (GLState_pushed s1) [(A, v2)]
                  (stateStack s1) [] eq_refl) as (f' & Hf' & _).
      fold s1a in Hf'. rewrite Hf'. apply snoc_not_nil. }
    assert (Hset1 : forall gl1, state gl1 = Some s0 -> lands (set p1) gl1 s1).
    { intros gl1 H1. pose proof (lands_set setter name p1 gl1 s0 H1) as H.
      rewrite Hp1 in H. exact H. }
    assert (Hset2 : forall gl1, state gl1 = Some (GLState_pushed s1) ->
                                lands (set p2) gl1 s1a).
    { intros gl1 H1.
      pose proof (lands_set setter name p2 gl1 (GLState_pushed s1) H1) as H.
      rewrite Hp2 in H. exact H. }
    assert (Hv1 : deepArrayEqual (obj_get (cache s1) A) v1 = true).
    { assert (Hwf : obj_wf [(A, v1)]) by (split; exact I).
      pose proof (_updateCache_synced s0 [(A, v1)] Hwf) as Hsync.
      fold s1 in Hsync. inversion Hsync as [| ? ? Hv _]; subst.
      cbn [fst snd] in Hv. rewrite deepArrayEqual_sym. exact Hv. }
    exists s1, s2, (GLState_popped s2).
    split; [| split; [| split; [| split; [| split; [| split; [| split]]]]]].
    + apply lands_seq with (st1 := s0); [apply lands_push, Hst | exact Hset1].
    + apply lands_seq with (st1 := s0); [apply lands_push, Hst |].
      intros gl1 H1. apply lands_seq with (st1 := s1); [apply Hset1, H1 |].
      intros gl2 H2.
      apply lands_seq with (st1 := GLState_pushed s1); [apply lands_push, H2 |].
      intros gl3 H3. apply lands_seq with (st1 := s1a); [apply Hset2, H3 |].
      intros gl4 H4. apply lands_pop; assumption.
    + apply lands_seq with (st1 := s0); [apply lands_push, Hst |].
      intros gl1 H1. apply lands_seq with (st1 := s1); [apply Hset1, H1 |].
      intros gl2 H2.
      apply lands_seq with (st1 := GLState_pushed s1); [apply lands_push, H2 |].
      intros gl3 H3. apply lands_seq with (st1 := s1a); [apply Hset2, H3 |].
      intros gl4 H4. apply lands_seq with (st1 := s2);
        [apply lands_pop; assumption |].
      intros gl5 H5. apply lands_pop; assumption.
    + rewrite Hc2. exact Hv1.
    + intros Hne. rewrite Hc2. unfold s1.
      rewrite (GLState_updated_single s0 (stateStack st) [] A v1 eq_refl).
      cbn [cache s0 GLState_pushed]. rewrite Hne. cbn [cache].
      apply obj_get_set_eq.
    + exact Hs2.
    + apply (in_scope_popped_exact _ _ _ _ Hin2).
      rewrite Hs2, Hc2. unfold s1.
      rewrite (GLState_updated_single s0 (stateStack st) [] A v1 eq_refl).
      cbn [cache s0 GLState_pushed].
      destruct (deepArrayEqual v1 (obj_get (cache st) A)) eqn:E.
      * right. reflexivity.
      * left. cbn [cache]. rewrite obj_get_set_eq, deepArrayEqual_sym. exact E.
    + apply (in_scope_popped _ _ _ _ Hin2).
  - intros gl0 st0 Hst0 Hne0. split.
    + unfold GLState_pop, bind at 1, get_state at 1. rewrite Hst0.
      destruct (stateStack st0) as [| f0 s0] eqn:Hs; [contradiction |].
      reflexivity.
    + exists (GLState_popped st0). split; [apply lands_pop; assumption |].
      apply GLState_popped_stack.
Qed.

(** *** The initializer, a second time *)

Lemma ignores_enable_bind {A B} (m : Action A) (k : A -> Action B) :
  ignores_enable m -> (forall a, ignores_enable (k a)) ->
  ignores_enable (bind m k).
Proof.
  intros Hm Hk e gl. unfold bind. rewrite Hm.
  destruct (m gl) as [a gl1 | err gl1]; simpl; [apply Hk | reflexivity].
Qed.

Lemma ignores_enable_ret {A} (a : A) : ignores_enable (ret a).
Proof. intros e gl. reflexivity. Qed.

(** Reading [gl.state] for anything but its flag. *)
Lemma ignores_enable_get_state {A} (k : GLState -> Action A) :
  (forall st e,
      k (mkGLState (program st) (stateStack st) e (cache st)) = k st) ->
  (forall st, ignores_enable (k st)) ->
  ignores_enable (st <- get_state ;; k st).
Proof.
  intros Hindep Hk e gl. unfold bind, get_state, set_enable.
  destruct gl as [u cs gp ie fs [st |]]; simpl; [| reflexivity].
  rewrite Hindep.
  specialize (Hk st e (mkContext u cs gp ie fs (Some st))).
  unfold set_enable in Hk. simpl in Hk. exact Hk.
Qed.

Lemma ignores_enable_native_set (name : string) (params : list value) :
  ignores_enable (native_set name params).
Proof. intros e [u cs gp ie fs [st |]]; reflexivity. Qed.

Lemma ignores_enable_native_restore (values : obj) :
  ignores_enable (native_restore values).
Proof. intros e [u cs gp ie fs [st |]]; reflexivity. Qed.

Lemma ignores_enable_updateCache (values : obj) :
  ignores_enable (updateCache values).
Proof.
  intros e [u cs gp ie fs [st |]]; [| reflexivity].
  unfold updateCache, bind, get_state, set_enable, _updateCache. simpl.
  destruct (update_loop values _) as [[c' f'] r']. reflexivity.
Qed.

Lemma ignores_enable_set_program (handle : value) :
  ignores_enable
    (st' <- get_state ;;
     put_state (mkGLState handle (stateStack st') (enable st') (cache st')) ;;
     ret VUndefined).
Proof. intros e [u cs gp ie fs [st |]]; reflexivity. Qed.

Lemma ignores_enable_call_set (f : SetFn) (params : list value) :
  ignores_enable (call_set f params).
Proof.
  revert params.
  induction f as [name | setter orig IH | orig IH]; intros params;
    cbn [call_set].
  - apply ignores_enable_native_set.
  - apply ignores_enable_bind; [apply ignores_enable_updateCache |].
    intros r. apply ignores_enable_bind; [| intros; apply ignores_enable_ret].
    destruct (valueChanged r); [apply IH | apply ignores_enable_ret].
  - apply ignores_enable_get_state; [reflexivity |].
    intros st. destruct (strict_eq (program st) (nth 0 params VUndefined));
      [apply ignores_enable_ret |].
    apply ignores_enable_bind; [apply IH |].
    intros _. apply ignores_enable_set_program.
Qed.

Lemma ignores_enable_push : ignores_enable GLState_push.
Proof. intros e [u cs gp ie fs [st |]]; reflexivity. Qed.

Lemma ignores_enable_setParameters (values : obj) :
  ignores_enable (setParameters values).
Proof.
  apply ignores_enable_bind; [apply ignores_enable_updateCache |].
  intros r. destruct (valueChanged r);
    [apply ignores_enable_native_restore | apply ignores_enable_ret].
Qed.

Lemma ignores_enable_pop : ignores_enable GLState_pop.
Proof.
  apply ignores_enable_get_state; [reflexivity |].
  intros st. apply ignores_enable_bind.
  - intros e gl. unfold assert.
    destruct (0 <? List.length (stateStack st))%nat; reflexivity.
  - intros _. apply ignores_enable_bind; [apply ignores_enable_setParameters |].
    intros _ e [u cs gp ie fs [st' |]]; reflexivity.
Qed.

(** C5. On a context that is already tracked, [trackContextState] (called
    with [copyState], as it must be) only stores the [enable] option in
    [gl.state.enable], true by default, and returns the context: the
    installed functions, the cache, the scope stack, the cached program,
    the implementation's state and the log of calls are the same.  Whatever
    the options, nothing is wrapped again and the cache and the stack are
    kept.  A scope run after it (push, a call of any set-style function,
    pop) does what it does on the context before the second call, flag
    apart. *)
Theorem trackContextState_again (gl : GL) (st : GLState)
    (enable0 : option bool) (copyState : bool) :
  state gl = Some st ->
  let e := match enable0 with Some b => b | None => true end in
  let gl' :=
    mkContext (native gl) (calls gl) (getParameter gl) (isEnabled gl)
      (functions gl)
      (Some (mkGLState (program st) (stateStack st) e (cache st))) in
  trackContextState (Some (mkOptions enable0 (Some copyState))) gl =
  Returns gl' gl' /\
  (forall options : option Options,
      let gl2 := final (trackContextState options gl) in
      functions gl2 = functions gl /\
      getParameter gl2 = getParameter gl /\
      isEnabled gl2 = isEnabled gl /\
      native gl2 = native gl /\
      calls gl2 = calls gl /\
      option_map cache (state gl2) = Some (cache st) /\
      option_map stateStack (state gl2) = Some (stateStack st) /\
      option_map program (state gl2) = Some (program st)) /\
  (forall (f : SetFn) (params : list value),
      (GLState_push ;; call_set f params ;; GLState_pop) gl' =
      map_final (set_enable e)
        ((GLState_push ;; call_set f params ;; GLState_pop) gl)).
Proof.
  intros Hst e gl'.
  assert (Hrun : forall e0 c,
             trackContextState (Some (mkOptions e0 (Some c))) gl =
             let gl0 :=
               mkContext (native gl) (calls gl) (getParameter gl)
                 (isEnabled gl) (functions gl)
                 (Some (mkGLState (program st) (stateStack st)
                          match e0 with Some b => b | None => true end
                          (cache st))) in
             Returns gl0 gl0).
  { intros e0 c. unfold trackContextState, bind, get_state. simpl.
    rewrite Hst. simpl. rewrite Hst. reflexivity. }
  split; [apply Hrun | split].
  - intros [[e0 [c |]] |]; cbv zeta.
    + rewrite Hrun. cbv zeta. cbn [final functions getParameter isEnabled
                                    native calls state option_map cache
                                    stateStack program].
      repeat split.
    + cbn. rewrite Hst. repeat split.
    + cbn. rewrite Hst. repeat split.
  - intros f params.
    assert (Hgl' : gl' = set_enable e gl)
      by (unfold set_enable; rewrite Hst; reflexivity).
    rewrite Hgl'.
    apply (ignores_enable_bind GLState_push); [apply ignores_enable_push |].
    intros _.
    apply (ignores_enable_bind (call_set f params));
      [apply ignores_enable_call_set |].
    intros _. apply ignores_enable_pop.
Qed.

End Claims.

(** ** The tracker on a small WebGL implementation *)

Section Runs.

Import Demo.

Example tracked_has_state : state tracked = Some tracked_state.
Proof. reflexivity. Qed.

Example tracked_functions :
  lookup_fn (functions tracked) "enable" = Some gl_enable /\
  lookup_fn (functions tracked) "blendColor" = Some gl_blendColor /\
  lookup_fn (functions tracked) "useProgram" = Some gl_useProgram /\
  getParameter tracked = GetFromCache (GetNative "getParameter").
Proof. repeat split. Qed.

(** [blendColor(0, 0, 0, 0)] on the defaults: a new container with the
    cached elements, and no call to the implementation. *)
Example blendColor_same_elements :
  call "blendColor" zero4 tracked = Returns VUndefined tracked.
Proof. reflexivity. Qed.

Example enable_then_query :
  (call "enable" [VNum 3042%Z] ;; gl_isEnabled (Some GL_BLEND)) tracked =
  Returns (VBool true)
    (final (call "enable" [VNum 3042%Z] tracked)).
Proof. reflexivity. Qed.

(** A limit is read live once and served from the cache afterwards. *)
Example limit_is_read_once :
  calls (final ((gl_getParameter (Some GL_MAX_TEXTURE_SIZE) ;;
                 gl_getParameter (Some GL_MAX_TEXTURE_SIZE)) tracked)) =
  [CallGet "getParameter" (Some GL_MAX_TEXTURE_SIZE)].
Proof. reflexivity. Qed.

End Runs.

(** C1, as stated, fails: [disable(BLEND)] on the defaults, twice, reaches
    the implementation not once but never. *)
Lemma repeated_calls_reach_once_fails :
  ~ @repeated_calls_reach_once Demo.platform.
Proof.
  intros H.
  specialize (H Demo.disable_adapter "disable"%string [VNum 3042%Z]
                Demo.tracked Demo.tracked_state 1%nat eq_refl).
  vm_compute in H. discriminate H.
Qed.

(** C3, as stated, fails: the inner [pop()] of [Demo.nested] changes the
    cached [BLEND] back to false, and the outer frame records nothing. *)
Lemma restore_recorded_in_outer_frame_fails :
  ~ @restore_recorded_in_outer_frame Demo.platform.
Proof.
  intros H.
  pose proof (fun st st' =>
                H Demo.nested (final (GLState_pop Demo.nested)) st st'
                  [] [] [(Demo.GL_BLEND, VBool false)] Demo.GL_BLEND) as H'.
  specialize (H' _ _ eq_refl eq_refl eq_refl eq_refl).
  assert (Hchanged :
            obj_get (cache Demo.tracked_state) Demo.GL_BLEND <>
            obj_get [(Demo.GL_BLEND, VBool true);
                     (Demo.GL_BLEND_COLOR, VArray 0 Demo.zero4)] Demo.GL_BLEND)
    by (vm_compute; discriminate).
  specialize (H' Hchanged). vm_compute in H'. discriminate H'.
Qed.

(** What the inner [pop()] of [Demo.nested] does: [BLEND] goes from true
    back to false through one restore call, the inner frame is gone, and the
    outer frame is as empty as before. *)
Example nested_inner_pop :
  option_map stateStack (state Demo.nested) =
    Some [[]; [(Demo.GL_BLEND, VBool false)]] /\
  option_map (fun st => obj_get (cache st) Demo.GL_BLEND) (state Demo.nested) =
    Some (VBool true) /\
  option_map stateStack (state (final (GLState_pop Demo.nested))) = Some [[]] /\
  option_map (fun st => obj_get (cache st) Demo.GL_BLEND)
    (state (final (GLState_pop Demo.nested))) = Some (VBool false) /\
  calls (final (GLState_pop Demo.nested)) =
    [CallSet "enable" [VNum 3042%Z];
     CallRestore [(Demo.GL_BLEND, VBool false)]].
Proof. repeat split. Qed.

(** ** The theorems at work on the small implementation *)

Lemma setter_repeat_is_elided_witness :
  state Demo.tracked = Some Demo.tracked_state /\
  same_entries (obj_of_entries (Demo.blendColor_adapter Demo.red))
    (obj_of_entries (Demo.blendColor_adapter Demo.red)) /\
  ((matches_cache (cache Demo.tracked_state)
      (obj_of_entries (Demo.blendColor_adapter Demo.red)) ->
    call_set (SetToCache Demo.blendColor_adapter (SetNative "useProgram"))
      Demo.red Demo.tracked = Returns VUndefined Demo.tracked) /\
   exists (old : value) (gl1 : GL),
     call_set Demo.gl_blendColor Demo.red Demo.tracked = Returns old gl1 /\
     repeat_call 3 (call_set Demo.gl_blendColor Demo.red) old gl1 =
     Returns VUndefined gl1 /\
     (matches_cache (cache Demo.tracked_state)
        (obj_of_entries (Demo.blendColor_adapter Demo.red)) ->
      calls gl1 = calls Demo.tracked) /\
     (~ matches_cache (cache Demo.tracked_state)
          (obj_of_entries (Demo.blendColor_adapter Demo.red)) ->
      calls gl1 = calls Demo.tracked ++ [CallSet "blendColor" Demo.red])).
Proof.
  split; [reflexivity |].
  split; [repeat constructor |].
  apply (@setter_repeat_is_elided Demo.platform Demo.blendColor_adapter
           "blendColor" (SetNative "useProgram") Demo.red Demo.red
           Demo.tracked Demo.tracked_state 3).
  - reflexivity.
  - repeat constructor.
Defined.

Lemma scope_first_write_wins_witness :
  state Demo.tracked = Some Demo.tracked_state /\
  Demo.blendColor_adapter Demo.red = [(Demo.GL_BLEND_COLOR, VArray 1 Demo.red)] /\
  Demo.blendColor_adapter Demo.green =
    [(Demo.GL_BLEND_COLOR, VArray 1 Demo.green)] /\
  exists (st2 st3 : GLState) (frame : obj),
    lands (GLState_push ;; call_set Demo.gl_blendColor Demo.red ;;
           call_set Demo.gl_blendColor Demo.green) Demo.tracked st2 /\
    stateStack st2 = [] ++ [frame] /\
    (frame = [] \/ frame = [(Demo.GL_BLEND_COLOR, VArray 0 Demo.zero4)]) /\
    (deepArrayEqual (VArray 1 Demo.red) (VArray 0 Demo.zero4) = false ->
     frame = [(Demo.GL_BLEND_COLOR, VArray 0 Demo.zero4)]) /\
    lands (GLState_push ;; call_set Demo.gl_blendColor Demo.red ;;
           call_set Demo.gl_blendColor Demo.green ;; GLState_pop)
      Demo.tracked st3 /\
    stateStack st3 = [] /\
    deepArrayEqual (obj_get (cache st3) Demo.GL_BLEND_COLOR)
      (VArray 0 Demo.zero4) = true /\
    (deepArrayEqual (VArray 1 Demo.red) (VArray 0 Demo.zero4) = false ->
     deepArrayEqual (obj_get (cache st3) Demo.GL_BLEND_COLOR)
       (VArray 1 Demo.red) = false) /\
    (deepArrayEqual (VArray 1 Demo.green) (VArray 0 Demo.zero4) = false ->
     obj_get (cache st3) Demo.GL_BLEND_COLOR = VArray 0 Demo.zero4) /\
    (forall k, k <> Demo.GL_BLEND_COLOR ->
       obj_get (cache st3) k = obj_get (cache Demo.tracked_state) k) /\
    exists (st1 : GLState) (old2 : value) (gl2 gl3 : GL),
      lands (GLState_push ;; call_set Demo.gl_blendColor Demo.red)
        Demo.tracked st1 /\
      obj_get (cache st1) Demo.GL_BLEND_COLOR = VArray 1 Demo.red /\
      deepArrayEqual (VArray 1 Demo.red) (VArray 1 Demo.red) = true /\
      (GLState_push ;; call_set Demo.gl_blendColor Demo.red ;;
       call_set Demo.gl_blendColor Demo.green) Demo.tracked =
      Returns old2 gl2 /\
      state gl2 = Some st2 /\
      obj_get (cache st2) Demo.GL_BLEND_COLOR = VArray 1 Demo.green /\
      deepArrayEqual (VArray 1 Demo.green) (VArray 1 Demo.green) = true /\
      calls gl2 =
      calls Demo.tracked ++
      [CallSet "blendColor" Demo.red] ++ [CallSet "blendColor" Demo.green] /\
      GLState_pop gl2 = Returns tt gl3 /\
      (GLState_push ;; call_set Demo.gl_blendColor Demo.red ;;
       call_set Demo.gl_blendColor Demo.green ;; GLState_pop) Demo.tracked =
      Returns tt gl3 /\
      state gl3 = Some st3 /\
      calls gl3 =
      calls gl2 ++ [CallRestore [(Demo.GL_BLEND_COLOR, VArray 0 Demo.zero4)]] /\
      native gl3 =
      nativeRestore [(Demo.GL_BLEND_COLOR, VArray 0 Demo.zero4)] (native gl2).
Proof.
  split; [reflexivity |]. split; [reflexivity |]. split; [reflexivity |].
  apply (proj1
           (@scope_first_write_wins Demo.platform Demo.blendColor_adapter
              "blendColor" Demo.red Demo.green Demo.GL_BLEND_COLOR
              (VArray 1 Demo.red) (VArray 1 Demo.green)
              Demo.tracked Demo.tracked_state eq_refl eq_refl eq_refl)).
Defined.

Lemma nested_scopes_restore_by_level_witness :
  state Demo.tracked = Some Demo.tracked_state /\
  Demo.blendColor_adapter Demo.red = [(Demo.GL_BLEND_COLOR, VArray 1 Demo.red)] /\
  Demo.blendColor_adapter Demo.green =
    [(Demo.GL_BLEND_COLOR, VArray 1 Demo.green)] /\
  exists s1 s2 s3 : GLState,
    lands (GLState_push ;; call_set Demo.gl_blendColor Demo.red)
      Demo.tracked s1 /\
    lands (GLState_push ;; call_set Demo.gl_blendColor Demo.red ;;
           GLState_push ;; call_set Demo.gl_blendColor Demo.green ;;
           GLState_pop) Demo.tracked s2 /\
    lands (GLState_push ;; call_set Demo.gl_blendColor Demo.red ;;
           GLState_push ;; call_set Demo.gl_blendColor Demo.green ;;
           GLState_pop ;; GLState_pop) Demo.tracked s3 /\
    deepArrayEqual (obj_get (cache s2) Demo.GL_BLEND_COLOR)
      (VArray 1 Demo.red) = true /\
    (deepArrayEqual (VArray 1 Demo.red) (VArray 0 Demo.zero4) = false ->
     obj_get (cache s2) Demo.GL_BLEND_COLOR = VArray 1 Demo.red) /\
    stateStack s2 = stateStack s1 /\
    obj_get (cache s3) Demo.GL_BLEND_COLOR = VArray 0 Demo.zero4 /\
    stateStack s3 = [].
Proof.
  split; [reflexivity |]. split; [reflexivity |]. split; [reflexivity |].
  apply (proj1
           (@nested_scopes_restore_by_level Demo.platform
              Demo.blendColor_adapter "blendColor" Demo.red Demo.green
              Demo.GL_BLEND_COLOR (VArray 1 Demo.red) (VArray 1 Demo.green)
              Demo.tracked Demo.tracked_state eq_refl eq_refl eq_refl)).
Defined.

Lemma push_pop_identity_witness :
  state Demo.nested = Some Demo.nested_state /\
  (GLState_push ;; GLState_pop) Demo.nested = Returns tt Demo.nested /\
  (pushContextState ;; popContextState) Demo.nested = Returns tt Demo.nested.
Proof.
  split; [reflexivity |].
  apply (@push_pop_identity Demo.platform Demo.nested Demo.nested_state).
  reflexivity.
Defined.

Lemma trackContextState_again_witness :
  state Demo.tracked = Some Demo.tracked_state /\
  trackContextState (Some (mkOptions (Some false) (Some true))) Demo.tracked =
  Returns Demo.tracked_off Demo.tracked_off /\
  (forall (f : SetFn) (params : list value),
      (GLState_push ;; call_set f params ;; GLState_pop) Demo.tracked_off =
      map_final (set_enable false)
        ((GLState_push ;; call_set f params ;; GLState_pop) Demo.tracked)).
Proof.
  split; [reflexivity |].
  pose proof (@trackContextState_again Demo.platform Demo.tracked
                Demo.tracked_state (Some false) true eq_refl) as H.
  cbv zeta in H. destruct H as (Hrun & _ & Hscope).
  split; [exact Hrun | exact Hscope].
Defined.

Lemma getter_bypasses_cache_witness :
  In Demo.GL_ACTIVE_TEXTURE (@NON_CACHE_PARAMETERS Demo.platform) /\
  call_get (GetFromCache (GetNative "getParameter"))
    (Some Demo.GL_ACTIVE_TEXTURE) Demo.tracked =
  call_get (GetNative "getParameter") (Some Demo.GL_ACTIVE_TEXTURE)
    Demo.tracked /\
  call_get (GetFromCache (GetNative "getParameter"))
    (Some Demo.GL_ACTIVE_TEXTURE) Demo.tracked =
  Returns (VNum 33984%Z)
    (mkContext (native Demo.tracked)
       (calls Demo.tracked ++
        [CallGet "getParameter" (Some Demo.GL_ACTIVE_TEXTURE)])
       (getParameter Demo.tracked) (isEnabled Demo.tracked)
       (functions Demo.tracked) (state Demo.tracked)).
Proof.
  split; [left; reflexivity |].
  apply (@getter_bypasses_cache Demo.platform (GetNative "getParameter")
           "getParameter" (Some Demo.GL_ACTIVE_TEXTURE) Demo.tracked).
  right. exists Demo.GL_ACTIVE_TEXTURE. split; [reflexivity | left; reflexivity].
Defined.

Lemma disabled_tracking_witness :
  state Demo.tracked_off = Some Demo.tracked_off_state /\
  enable Demo.tracked_off_state = false /\
  ~ In Demo.GL_BLEND (@NON_CACHE_PARAMETERS Demo.platform) /\
  (call_get (GetFromCache (GetNative "isEnabled")) (Some Demo.GL_BLEND)
     Demo.tracked_off =
   Returns (VBool false)
     (if obj_has (cache Demo.tracked_off_state) Demo.GL_BLEND
      then mkContext (native Demo.tracked_off)
             (calls Demo.tracked_off ++ [CallGet "isEnabled" (Some Demo.GL_BLEND)])
             (getParameter Demo.tracked_off) (isEnabled Demo.tracked_off)
             (functions Demo.tracked_off) (Some Demo.tracked_off_state)
      else mkContext (native Demo.tracked_off)
             ((calls Demo.tracked_off ++
               [CallGet "isEnabled" (Some Demo.GL_BLEND)]) ++
              [CallGet "isEnabled" (Some Demo.GL_BLEND)])
             (getParameter Demo.tracked_off) (isEnabled Demo.tracked_off)
             (functions Demo.tracked_off)
             (Some (mkGLState (program Demo.tracked_off_state)
                      (stateStack Demo.tracked_off_state) false
                      (obj_set (cache Demo.tracked_off_state) Demo.GL_BLEND
                         (VBool false))))) /\
   (forall (setter : adapter) (orig : SetFn) (params : list value),
       matches_cache (cache Demo.tracked_off_state)
         (obj_of_entries (setter params)) ->
       call_set (SetToCache setter orig) params Demo.tracked_off =
       Returns VUndefined Demo.tracked_off) /\
   (forall (setter : adapter) (sname : string) (params : list value),
       exists (old : value) (gl' : GL) (st' : GLState),
         call_set (SetToCache setter (SetNative sname)) params
           Demo.tracked_off = Returns old gl' /\
         state gl' = Some st' /\
         st' = GLState_updated Demo.tracked_off_state
                 (obj_of_entries (setter params)) /\
         enable st' = false /\
         matches_cache (cache st') (obj_of_entries (setter params)))).
Proof.
  split; [reflexivity |]. split; [reflexivity |].
  assert (Hnot : ~ In Demo.GL_BLEND (@NON_CACHE_PARAMETERS Demo.platform))
    by (intros [H | []]; discriminate H).
  split; [exact Hnot |].
  apply (@disabled_tracking Demo.platform "isEnabled" Demo.GL_BLEND
           Demo.tracked_off Demo.tracked_off_state eq_refl eq_refl Hnot).
Defined.

Lemma useProgram_short_circuit_witness :
  state Demo.tracked = Some Demo.tracked_state /\
  strict_eq (program Demo.tracked_state) VNull = true /\
  strict_eq (program Demo.tracked_state) (VObject 7) = false /\
  call_set Demo.gl_useProgram [VNull] Demo.tracked =
  Returns VUndefined Demo.tracked /\
  (forall name : string,
      call_set (UseProgramLuma (SetNative name)) [VObject 7] Demo.tracked =
      Returns VUndefined
        (mkContext (nativeSet name [VObject 7] (native Demo.tracked))
           (calls Demo.tracked ++ [CallSet name [VObject 7]])
           (getParameter Demo.tracked) (isEnabled Demo.tracked)
           (functions Demo.tracked)
           (Some (mkGLState (VObject 7) (stateStack Demo.tracked_state)
                    (enable Demo.tracked_state) (cache Demo.tracked_state))))).
Proof.
  split; [reflexivity |]. split; [reflexivity |]. split; [reflexivity |].
  split.
  - apply (proj1
             (@useProgram_short_circuit Demo.platform (SetNative "useProgram")
                VNull Demo.tracked Demo.tracked_state eq_refl) eq_refl).
  - apply (proj2
             (proj2
                (@useProgram_short_circuit Demo.platform
                   (SetNative "useProgram") (VObject 7) Demo.tracked
                   Demo.tracked_state eq_refl) eq_refl)).
Defined.

(** ** More of the tracker: the getters, [_updateCache], whole scopes and the
    first initialization *)

Section Coverage.

Context {P : Platform}.

Lemma cacheable_not_cached (k : key) :
  ~ In k NON_CACHE_PARAMETERS -> not_cached (Some k) = false.
Proof.
  intros Hnot. destruct (not_cached (Some k)) eqn:E; [| reflexivity].
  apply not_cached_spec in E. destruct E as [E | (k' & Hk & Hin)].
  - discriminate.
  - injection Hk as ->. contradiction.
Qed.

Lemma call_get_cache_hit (orig : GetFn) (k : key) (gl : GL) (st : GLState) :
  state gl = Some st -> enable st = true ->
  not_cached (Some k) = false -> obj_has (cache st) k = true ->
  call_get (GetFromCache orig) (Some k) gl = Returns (obj_get (cache st) k) gl.
Proof.
  intros Hst Hen Hnc Hhas. cbn [call_get]. rewrite Hnc.
  unfold bind, get_state. rewrite Hst, Hhas. simpl.
  rewrite Hst, Hen. reflexivity.
Qed.

(** X1. With tracking enabled, a query for a cacheable identifier that has
    a cache entry is answered from the cache: the wrapped function is not
    called, whichever it is, and the context is left as it is. *)
Theorem getter_serves_from_cache (orig : GetFn) (k : key) (gl : GL)
    (st : GLState) :
  state gl = Some st -> enable st = true ->
  ~ In k NON_CACHE_PARAMETERS -> obj_has (cache st) k = true ->
  call_get (GetFromCache orig) (Some k) gl = Returns (obj_get (cache st) k) gl.
Proof.
  intros Hst Hen Hnot Hhas.
  apply call_get_cache_hit; auto using cacheable_not_cached.
Qed.

(** X2. With tracking enabled, the first query for a cacheable identifier
    that has no cache entry reads it from the implementation once, stores
    the value in the cache and returns it; every later query returns that
    stored value without reaching the implementation. *)
Theorem getter_lazy_fill_reads_once (name : string) (k : key) (gl : GL)
    (st : GLState) :
  state gl = Some st -> enable st = true ->
  ~ In k NON_CACHE_PARAMETERS -> obj_has (cache st) k = false ->
  let live := nativeGet name (Some k) (native gl) in
  let gl1 :=
    mkContext (native gl) (calls gl ++ [CallGet name (Some k)])
      (getParameter gl) (isEnabled gl) (functions gl)
      (Some (mkGLState (program st) (stateStack st) true
               (obj_set (cache st) k live))) in
  call_get (GetFromCache (GetNative name)) (Some k) gl = Returns live gl1 /\
  (forall orig : GetFn,
      call_get (GetFromCache orig) (Some k) gl1 = Returns live gl1).
Proof.
  intros Hst Hen Hnot Hhas live gl1. split.
  - cbn [call_get]. rewrite (cacheable_not_cached k Hnot).
    unfold bind, get_state. rewrite Hst, Hhas. simpl.
    rewrite Hst. simpl. rewrite Hen, obj_get_set_eq. reflexivity.
  - intros orig. cbn [call_get]. rewrite (cacheable_not_cached k Hnot).
    unfold bind, get_state. simpl.
    rewrite obj_has_set_eq. simpl. rewrite obj_get_set_eq. reflexivity.
Qed.

(** X3. What a hooked setter writes, the getter reads back: after a set of
    the one identifier [A] to [v] that changed the cache, or found an entry
    deep-equal to [v], a query for [A] (tracking enabled, [A] cacheable)
    returns a value deep-equal to [v], the very [v] after a change, and
    does so from the cache: the only call that reached the implementation is
    the setter's own, if the value changed. *)
Theorem setter_then_getter_round_trip (setter : adapter) (name : string)
    (orig : GetFn) (params : list value) (A : key) (v : value) (gl : GL)
    (st : GLState) :
  state gl = Some st -> enable st = true -> ~ In A NON_CACHE_PARAMETERS ->
  setter params = [(A, v)] ->
  obj_has (cache st) A = true \/
  deepArrayEqual v (obj_get (cache st) A) = false ->
  exists (x : value) (gl' : GL),
    (call_set (SetToCache setter (SetNative name)) params ;;
     call_get (GetFromCache orig) (Some A)) gl = Returns x gl' /\
    deepArrayEqual v x = true /\
    (deepArrayEqual v (obj_get (cache st) A) = false -> x = v) /\
    calls gl' =
    calls gl ++
    (if deepArrayEqual v (obj_get (cache st) A) then []
     else [CallSet name params]).
Proof.
  intros Hst Hen Hnot Hp Hcase.
  unfold bind.
  rewrite (call_set_spy_native setter name params gl st Hst). cbv zeta.
  rewrite Hp. change (obj_of_entries [(A, v)]) with [(A, v)].
  unfold _updateCache. cbn [update_loop update_entry].
  destruct (deepArrayEqual v (obj_get (cache st) A)) eqn:E; cbn [fst snd valueChanged].
  - destruct Hcase as [Hhas | Hne]; [| discriminate].
    rewrite write_top_frame_same.
    eexists _, _. split.
    + apply call_get_cache_hit with
        (st := mkGLState (program st) (stateStack st) (enable st) (cache st));
        auto using cacheable_not_cached.
    + cbn [cache calls set_state]. rewrite app_nil_r.
      repeat split; [exact E | discriminate].
  - set (f' := match top_frame (stateStack st) with
               | Some frame =>
                   if obj_has frame A then Some frame
                   else Some (obj_set frame A (obj_get (cache st) A))
               | None => None
               end).
    eexists _, _. split.
    + apply call_get_cache_hit with
        (st := mkGLState (program st) (write_top_frame (stateStack st) f')
                 (enable st) (obj_set (cache st) A v));
        auto using cacheable_not_cached.
      cbn [cache]. apply obj_has_set_eq.
    + cbn [cache calls]. rewrite obj_get_set_eq, deepArrayEqual_refl.
      repeat split.
Qed.

(** *** [_updateCache] *)

Lemma update_loop_app (a b : obj) (acc : obj * option obj * UpdateResult) :
  update_loop (a ++ b) acc = update_loop b (update_loop a acc).
Proof.
  revert acc. induction a as [| [k v] a IH]; intros acc; simpl;
    [reflexivity | apply IH].
Qed.

Lemma matches_cache_ext (c c' : obj) (values : obj) :
  (forall k, In k (obj_keys values) -> obj_get c' k = obj_get c k) ->
  matches_cache c values -> matches_cache c' values.
Proof.
  unfold matches_cache. intros Hext Hm.
  induction Hm as [| [k v] rest Hkv _ IH]; constructor.
  - simpl in *. rewrite Hext by (left; reflexivity). exact Hkv.
  - apply IH. intros k' Hin. apply Hext. right. exact Hin.
Qed.

Lemma NoDup_keys_split (pre post : obj) (k : key) (v : value) :
  NoDup (obj_keys (pre ++ (k, v) :: post)) ->
  ~ In k (obj_keys pre) /\
  (forall k', In k' (obj_keys post) -> k' <> k /\ ~ In k' (obj_keys pre)).
Proof.
  unfold obj_keys. rewrite map_app. simpl. intros Hnd.
  pose proof (NoDup_remove_2 _ _ _ Hnd) as Hk.
  split.
  - intros Hin. apply Hk, in_or_app. left. exact Hin.
  - intros k' Hin. split.
    + intros ->. apply Hk, in_or_app. right. exact Hin.
    + intros Hpre. revert Hnd Hin Hpre. clear.
      induction (map fst pre) as [| a l IH]; simpl; intros Hnd Hin Hpre;
        [contradiction |].
      inversion Hnd as [| ? ? Hnot Hnd']; subst.
      destruct Hpre as [-> | Hpre]; [| apply IH; assumption].
      apply Hnot, in_or_app. right. right. exact Hin.
Qed.

(** X4. [_updateCache] reports as [oldValue] the value the cache held for
    the last identifier it changed, and the hooked setter returns it: when
    the entry for [k] differs from the cache and the entries enumerated
    after it match the cache, the result is [valueChanged] with the former
    value of [k]. *)
Theorem updateCache_reports_last_change (st : GLState) (pre post : obj)
    (k : key) (v : value) :
  NoDup (obj_keys (pre ++ (k, v) :: post)) ->
  deepArrayEqual v (obj_get (cache st) k) = false ->
  matches_cache (cache st) post ->
  snd (_updateCache st (pre ++ (k, v) :: post)) =
  mkUpdateResult true (obj_get (cache st) k) /\
  (forall (setter : adapter) (name : string) (params : list value) (gl : GL),
      state gl = Some st ->
      obj_of_entries (setter params) = pre ++ (k, v) :: post ->
      exists gl',
        call_set (SetToCache setter (SetNative name)) params gl =
        Returns (obj_get (cache st) k) gl').
Proof.
  intros Hnd Hne Hpost.
  assert (Hres : snd (_updateCache st (pre ++ (k, v) :: post)) =
                 mkUpdateResult true (obj_get (cache st) k)).
  { destruct (NoDup_keys_split pre post k v Hnd) as [Hk Hpostk].
    unfold _updateCache. rewrite update_loop_app.
    pose proof (update_loop_cache_other pre (cache st)
                  (top_frame (stateStack st))
                  (mkUpdateResult false VUndefined)) as Hother.
    destruct (update_loop pre _) as [[c1 f1] r1]. cbn [fst] in Hother.
    cbn [update_loop update_entry].
    rewrite (Hother k Hk), Hne.
    rewrite update_loop_unchanged; [reflexivity |].
    apply (matches_cache_ext (cache st)); [| exact Hpost].
    intros k' Hin. destruct (Hpostk k' Hin) as [Hkk Hpre].
    rewrite obj_get_set_ne by exact Hkk. apply Hother, Hpre. }
  split; [exact Hres |].
  intros setter name params gl Hst Hentries.
  rewrite (call_set_spy_native setter name params gl st Hst). cbv zeta.
  rewrite Hentries, Hres. eexists. reflexivity.
Qed.

Lemma GLState_updated_stack_empty (st : GLState) (values : obj) :
  stateStack (GLState_updated st values) = [] <-> stateStack st = [].
Proof.
  unfold GLState_updated, _updateCache.
  pose proof (update_loop_frame_presence values (cache st)
                (top_frame (stateStack st)) (mkUpdateResult false VUndefined)) as H.
  destruct (update_loop values _) as [[c' f'] r']. cbn [fst snd stateStack] in *.
  destruct (stateStack st) as [| f0 s0] eqn:Hs.
  - simpl in H. destruct H as [_ H]. rewrite (H eq_refl). tauto.
  - destruct f' as [f' |].
    + unfold write_top_frame. split; [| discriminate].
      intros Hnil. apply app_eq_nil in Hnil. destruct Hnil. discriminate.
    + destruct H as [H _]. specialize (H eq_refl). discriminate.
Qed.

Lemma removelast_length {A} (l : list A) :
  List.length (removelast l) = pred (List.length l).
Proof.
  induction l as [| a [| b l'] IH]; simpl in *; [reflexivity .. |].
  rewrite IH. reflexivity.
Qed.

Lemma same_removelast_same_length {A} (l l' : list A) :
  removelast l = removelast l' -> (l = [] <-> l' = []) ->
  List.length l = List.length l'.
Proof.
  intros Hrem Hnil.
  pose proof (removelast_length l) as H1.
  pose proof (removelast_length l') as H2.
  rewrite Hrem in H1. rewrite H1 in H2.
  destruct l, l'; simpl in *; try lia.
  - destruct Hnil as [Hnil _]. specialize (Hnil eq_refl). discriminate.
  - destruct Hnil as [_ Hnil]. specialize (Hnil eq_refl). discriminate.
Qed.

Lemma GLState_updated_cache_other (st : GLState) (values : obj) (k : key) :
  ~ In k (obj_keys values) ->
  obj_get (cache (GLState_updated st values)) k = obj_get (cache st) k.
Proof.
  intros Hnot. unfold GLState_updated, _updateCache.
  pose proof (update_loop_cache_other values (cache st)
                (top_frame (stateStack st)) (mkUpdateResult false VUndefined)
                k Hnot) as H.
  destruct (update_loop values _) as [[c' f'] r']. exact H.
Qed.

(** X5. What [_updateCache] leaves alone: the cached program and the
    [enable] flag, the depth of the scope stack and every frame below the
    top one, and the cache entry of every identifier that is not a key of
    [values].  With no scope open the stack stays empty: nothing is
    recorded. *)
Theorem updateCache_touches_only (st : GLState) (values : obj) :
  let st' := fst (_updateCache st values) in
  program st' = program st /\
  enable st' = enable st /\
  List.length (stateStack st') = List.length (stateStack st) /\
  removelast (stateStack st') = removelast (stateStack st) /\
  (stateStack st = [] -> stateStack st' = []) /\
  (forall k, ~ In k (obj_keys values) ->
     obj_get (cache st') k = obj_get (cache st) k).
Proof.
  cbv zeta. fold (GLState_updated st values).
  split; [apply _updateCache_program |].
  split; [apply _updateCache_enable |].
  split; [apply same_removelast_same_length;
          [apply _updateCache_outer_frames | apply GLState_updated_stack_empty] |].
  split; [apply _updateCache_outer_frames |].
  split; [apply GLState_updated_stack_empty |].
  intros k Hnot. apply GLState_updated_cache_other, Hnot.
Qed.

Lemma update_loop_records (values : obj) (c f : obj) (r : UpdateResult)
    (k : key) (v : value) :
  NoDup (obj_keys values) -> In (k, v) values ->
  deepArrayEqual v (obj_get c k) = false -> obj_has f k = false ->
  exists f',
    snd (fst (update_loop values (c, Some f, r))) = Some f' /\
    obj_find f' k = Some (obj_get c k).
Proof.
  revert c f r.
  induction values as [| [k0 v0] rest IH]; intros c f r Hnd Hin Hne Hhas;
    [destruct Hin |].
  inversion Hnd as [| ? ? Hnotin Hnd']; subst.
  destruct Hin as [Heq | Hin].
  - injection Heq as -> ->. cbn [update_loop update_entry].
    rewrite Hne, Hhas.
    destruct (update_loop_frame_keeps rest (obj_set c k v)
                (obj_set f k (obj_get c k))
                (mkUpdateResult true (obj_get c k))) as (f' & Hf' & Hkeep & _).
    exists f'. split; [exact Hf' |].
    rewrite Hkeep by apply obj_has_set_eq. apply obj_find_set_eq.
  - assert (Hk : k <> k0).
    { intros ->. apply Hnotin. unfold obj_keys.
      change k0 with (fst (k0, v)). apply in_map. exact Hin. }
    cbn [update_loop update_entry].
    destruct (deepArrayEqual v0 (obj_get c k0)); [apply IH; assumption |].
    destruct (obj_has f k0).
    + destruct (IH (obj_set c k0 v0) f (mkUpdateResult true (obj_get c k0))
                  Hnd' Hin) as (f' & Hf' & Hrec); auto.
      * rewrite obj_get_set_ne by exact Hk. exact Hne.
      * exists f'. rewrite obj_get_set_ne in Hrec by exact Hk. auto.
    + destruct (IH (obj_set c k0 v0) (obj_set f k0 (obj_get c k0))
                  (mkUpdateResult true (obj_get c k0)) Hnd' Hin)
        as (f' & Hf' & Hrec).
      * rewrite obj_get_set_ne by exact Hk. exact Hne.
      * rewrite obj_has_set_ne by exact Hk. exact Hhas.
      * exists f'. rewrite obj_get_set_ne in Hrec by exact Hk. auto.
Qed.

Lemma update_loop_records_only (values : obj) (c f : obj) (r : UpdateResult)
    (f' : obj) (k : key) :
  NoDup (obj_keys values) ->
  snd (fst (update_loop values (c, Some f, r))) = Some f' ->
  obj_has f' k = true ->
  obj_has f k = true \/
  exists v, In (k, v) values /\ deepArrayEqual v (obj_get c k) = false.
Proof.
  revert c f r.
  induction values as [| [k0 v0] rest IH]; intros c f r Hnd Hf' Hhas.
  - simpl in Hf'. injection Hf' as <-. left. exact Hhas.
  - inversion Hnd as [| ? ? Hnotin Hnd']; subst.
    cbn [update_loop update_entry] in Hf'.
    destruct (deepArrayEqual v0 (obj_get c k0)) eqn:E.
    + destruct (IH c f r Hnd' Hf' Hhas) as [H | (v & Hin & Hv)];
        [left; exact H | right; exists v; split; [right; exact Hin | exact Hv]].
    + assert (Hget : forall k', In k' (obj_keys rest) ->
                obj_get (obj_set c k0 v0) k' = obj_get c k').
      { intros k' Hin. apply obj_get_set_ne. intros ->. contradiction. }
      assert (Hstep : forall f1,
                 snd (fst (update_loop rest
                             (obj_set c k0 v0, Some f1,
                              mkUpdateResult true (obj_get c k0)))) = Some f' ->
                 obj_has f1 k = true \/
                 exists v, In (k, v) ((k0, v0) :: rest) /\
                           deepArrayEqual v (obj_get c k) = false).
      { intros f1 Hf1.
        destruct (IH _ _ _ Hnd' Hf1 Hhas) as [H | (v & Hin & Hv)];
          [left; exact H |].
        right. exists v. split; [right; exact Hin |].
        rewrite <- (Hget k); [exact Hv |].
        unfold obj_keys. change k with (fst (k, v)). apply in_map. exact Hin. }
      destruct (obj_has f k0) eqn:Hk0.
      * apply Hstep. exact Hf'.
      * destruct (Hstep _ Hf') as [H | H]; [| right; exact H].
        destruct (N.eq_dec k k0) as [-> | Hkk].
        -- right. exists v0. split; [left; reflexivity | exact E].
        -- left. rewrite obj_has_set_ne in H by exact Hkk. exact H.
Qed.

(** X6. With a scope open, [_updateCache] records in the top frame the
    value the cache held for each identifier it changes and that the frame
    had no record of, and it records nothing else: an identifier in the
    frame afterwards was there before or is one whose value changed. *)
Theorem scope_frame_records_changes (st : GLState) (s : list obj) (f : obj)
    (values : obj) :
  stateStack st = s ++ [f] -> NoDup (obj_keys values) ->
  exists f',
    stateStack (fst (_updateCache st values)) = s ++ [f'] /\
    (forall k v,
        In (k, v) values ->
        deepArrayEqual v (obj_get (cache st) k) = false ->
        obj_has f k = false ->
        obj_find f' k = Some (obj_get (cache st) k)) /\
    (forall k,
        obj_has f' k = true ->
        obj_has f k = true \/
        exists v, In (k, v) values /\
                  deepArrayEqual v (obj_get (cache st) k) = false).
Proof.
  intros Hs Hnd. unfold _updateCache. rewrite Hs, top_frame_snoc.
  destruct (update_loop_frame_keeps values (cache st) f
              (mkUpdateResult false VUndefined)) as (f' & Hf' & _).
  pose proof (fun k v => update_loop_records values (cache st) f
                (mkUpdateResult false VUndefined) k v Hnd) as Hrec.
  pose proof (fun k => update_loop_records_only values (cache st) f
                (mkUpdateResult false VUndefined) f' k Hnd Hf') as Honly.
  destruct (update_loop values _) as [[c' f''] r'].
  cbn [fst snd] in *. subst f''.
  exists f'. cbn [stateStack]. rewrite write_top_frame_snoc.
  split; [reflexivity | split].
  - intros k v Hin Hne Hhas.
    destruct (Hrec k v Hin Hne Hhas) as (f2 & Hf2 & Hfind).
    injection Hf2 as <-. exact Hfind.
  - exact Honly.
Qed.

(** *** Whole scopes *)

Lemma obj_find_In (o : obj) (k : key) (x : value) :
  obj_find o k = Some x -> In (k, x) o.
Proof.
  induction o as [| [k' v'] rest IH]; simpl; [discriminate |].
  destruct (N.eqb_spec k k') as [-> | Hne].
  - intros H. injection H as ->. left. reflexivity.
  - intros H. right. apply IH, H.
Qed.

Lemma obj_find_None_keys (o : obj) (k : key) :
  obj_find o k = None -> ~ In k (obj_keys o).
Proof.
  intros Hnone Hin. apply obj_has_in_keys in Hin.
  unfold obj_has in Hin. rewrite Hnone in Hin. discriminate.
Qed.

Lemma restorable_update_entry (c0 c f : obj) (r : UpdateResult) (k : key)
    (v : value) :
  restorable c0 c f ->
  exists c' f' r',
    update_entry k v (c, Some f, r) = (c', Some f', r') /\
    restorable c0 c' f'.
Proof.
  intros [Hwf Hinv]. unfold update_entry.
  destruct (deepArrayEqual v (obj_get c k)) eqn:E.
  - exists c, f, r. split; [reflexivity | split; assumption].
  - destruct (obj_has f k) eqn:Hhas.
    + eexists _, _, _. split; [reflexivity |]. split; [exact Hwf |].
      intros k'. specialize (Hinv k').
      destruct (obj_find f k') as [x |] eqn:Hfind; [exact Hinv |].
      rewrite obj_get_set_ne; [exact Hinv |].
      intros ->. unfold obj_has in Hhas. rewrite Hfind in Hhas. discriminate.
    + eexists _, _, _. split; [reflexivity |].
      split; [apply obj_set_wf, Hwf |].
      intros k'. destruct (N.eq_dec k' k) as [-> | Hne].
      * rewrite obj_find_set_eq. specialize (Hinv k).
        unfold obj_has in Hhas.
        destruct (obj_find f k); [discriminate | exact Hinv].
      * rewrite obj_find_set_ne by exact Hne.
        rewrite obj_get_set_ne by exact Hne. apply Hinv.
Qed.

Lemma restorable_update_loop (values : obj) (c0 c f : obj) (r : UpdateResult) :
  restorable c0 c f ->
  exists c' f' r',
    update_loop values (c, Some f, r) = (c', Some f', r') /\
    restorable c0 c' f'.
Proof.
  revert c f r.
  induction values as [| [k v] rest IH]; intros c f r Hres.
  - exists c, f, r. split; [reflexivity | exact Hres].
  - cbn [update_loop].
    destruct (restorable_update_entry c0 c f r k v Hres)
      as (c1 & f1 & r1 & Hstep & Hres1).
    rewrite Hstep. apply IH, Hres1.
Qed.

(** The cache and top frame of a state. *)
Lemma restorable_updated (c0 : obj) (st : GLState) (s : list obj) (f : obj)
    (values : obj) :
  stateStack st = s ++ [f] -> restorable c0 (cache st) f ->
  exists f',
    stateStack (GLState_updated st values) = s ++ [f'] /\
    restorable c0 (cache (GLState_updated st values)) f'.
Proof.
  intros Hs Hres. unfold GLState_updated, _updateCache.
  rewrite Hs, top_frame_snoc.
  destruct (restorable_update_loop values c0 (cache st) f
              (mkUpdateResult false VUndefined) Hres)
    as (c' & f' & r' & Hloop & Hres').
  rewrite Hloop. exists f'. cbn [fst stateStack cache].
  rewrite write_top_frame_snoc. auto.
Qed.

(** Leaving the scope brings every identifier back to a value deep-equal
    to the one it had in [c0]. *)
Lemma restorable_popped (c0 : obj) (st : GLState) (s : list obj) (f : obj) :
  stateStack st = s ++ [f] -> restorable c0 (cache st) f ->
  stateStack (GLState_popped st) = s /\
  (forall k,
      deepArrayEqual (obj_get (cache (GLState_popped st)) k) (obj_get c0 k) =
      true).
Proof.
  intros Hs [Hwf Hinv]. rewrite (GLState_popped_frame st s f Hs).
  split; [reflexivity |]. intros k. cbn [cache].
  pose proof (_updateCache_synced st f Hwf) as Hsync.
  pose proof (GLState_updated_cache_other st f) as Hother.
  specialize (Hinv k). destruct (obj_find f k) as [x |] eqn:Hfind.
  - apply obj_find_In in Hfind.
    unfold matches_cache in Hsync. rewrite Forall_forall in Hsync.
    specialize (Hsync (k, x) Hfind). cbn [fst snd] in Hsync.
    rewrite deepArrayEqual_sym in Hsync.
    eapply deepArrayEqual_trans; eassumption.
  - rewrite Hother by (apply obj_find_None_keys, Hfind). exact Hinv.
Qed.

Lemma restorable_ext (c0 c c' f : obj) :
  restorable c0 c f ->
  (forall k, deepArrayEqual (obj_get c' k) (obj_get c k) = true) ->
  restorable c0 c' f.
Proof.
  intros [Hwf Hinv] Hext. split; [exact Hwf |].
  intros k. specialize (Hinv k). destruct (obj_find f k); [exact Hinv |].
  eapply deepArrayEqual_trans; [apply Hext | exact Hinv].
Qed.

Lemma run_state_flags (p : Script) (st : GLState) :
  program (run_state p st) = program st /\
  enable (run_state p st) = enable st.
Proof.
  revert st. induction p as [| setter name params | body IH | a IHa b IHb];
    intros st; cbn [run_state].
  - auto.
  - split; [apply _updateCache_program | apply _updateCache_enable].
  - unfold GLState_popped. cbn [program enable].
    rewrite _updateCache_program, _updateCache_enable.
    destruct (IH (GLState_pushed st)) as [Hp He]. rewrite Hp, He. auto.
  - destruct (IHb (run_state a st)) as [Hp He].
    destruct (IHa st) as [Hp' He']. rewrite Hp, He. auto.
Qed.

(** A script leaves the frames below the top one alone, and an empty stack
    empty. *)
Lemma run_state_outer_frames (p : Script) (st : GLState) :
  removelast (stateStack (run_state p st)) = removelast (stateStack st) /\
  (stateStack (run_state p st) = [] <-> stateStack st = []).
Proof.
  revert st. induction p as [| setter name params | body IH | a IHa b IHb];
    intros st; cbn [run_state].
  - split; [reflexivity | tauto].
  - split; [apply _updateCache_outer_frames |
            apply GLState_updated_stack_empty].
  - assert (Hstack : stateStack
                       (GLState_popped (run_state body (GLState_pushed st))) =
                     stateStack st).
    { rewrite GLState_popped_stack.
      destruct (IH (GLState_pushed st)) as (Hrem & _).
      rewrite Hrem. cbn [GLState_pushed stateStack]. apply removelast_last. }
    rewrite Hstack. split; [reflexivity | tauto].
  - destruct (IHa st) as (Hra & Hea).
    destruct (IHb (run_state a st)) as (Hrb & Heb).
    split; [congruence | tauto].
Qed.

(** A script run inside a scope keeps the scope restorable; a scope run
    anywhere gives back a cache that reads deep-equal to the one before. *)
Lemma run_state_restorable (p : Script) :
  forall (c0 : obj) (st : GLState) (s : list obj) (f : obj),
    stateStack st = s ++ [f] -> restorable c0 (cache st) f ->
    exists f',
      stateStack (run_state p st) = s ++ [f'] /\
      restorable c0 (cache (run_state p st)) f'.
Proof.
  induction p as [| setter name params | body IH | a IHa b IHb];
    intros c0 st s f Hs Hres; cbn [run_state].
  - exists f. auto.
  - apply (restorable_updated c0 st s f _ Hs Hres).
  - destruct (IH (cache st) (GLState_pushed st) (stateStack st) [] eq_refl)
      as (f1 & Hs1 & Hres1).
    { split; [exact I |]. intros k. apply deepArrayEqual_refl. }
    destruct (restorable_popped (cache st) _ _ _ Hs1 Hres1) as [Hstack Hcache].
    exists f. split; [rewrite Hstack; exact Hs |].
    apply (restorable_ext c0 (cache st)); assumption.
  - destruct (IHa c0 st s f Hs Hres) as (f1 & Hs1 & Hres1).
    apply (IHb c0 (run_state a st) s f1 Hs1 Hres1).
Qed.

Lemma run_lands (p : Script) :
  forall (gl : GL) (st : GLState),
    state gl = Some st -> lands (run p) gl (run_state p st).
Proof.
  induction p as [| setter name params | body IH | a IHa b IHb];
    intros gl st Hst; cbn [run run_state].
  - exists tt, gl. auto.
  - apply lands_seq with
      (st1 := GLState_updated st (obj_of_entries (setter params)));
      [apply lands_set, Hst |].
    intros gl1 H1. exists tt, gl1. auto.
  - apply lands_seq with (st1 := GLState_pushed st); [apply lands_push, Hst |].
    intros gl1 H1.
    apply lands_seq with (st1 := run_state body (GLState_pushed st));
      [apply IH, H1 |].
    intros gl2 H2. apply lands_pop; [exact H2 |].
    intros Hnil.
    apply (proj2 (run_state_outer_frames body (GLState_pushed st))) in Hnil.
    cbn [GLState_pushed stateStack] in Hnil. apply (snoc_not_nil _ _ Hnil).
  - apply lands_seq with (st1 := run_state a st); [apply IHa, Hst |].
    intros gl1 H1. apply IHb, H1.
Qed.

(** X7. A scope restores what was set inside it, whatever that was: after
    [push()], any script of hooked setters and nested scopes, and [pop()],
    the call returns, the scope stack is the one from before, every
    identifier reads from the cache a value deep-equal to the one it had
    before, and the cached program and the [enable] flag are unchanged. *)
Theorem scope_restores_cache (body : Script) (gl : GL) (st : GLState) :
  state gl = Some st ->
  exists st',
    lands (run (Scoped body)) gl st' /\
    stateStack st' = stateStack st /\
    (forall k,
        deepArrayEqual (obj_get (cache st') k) (obj_get (cache st) k) = true) /\
    program st' = program st /\ enable st' = enable st.
Proof.
  intros Hst. exists (run_state (Scoped body) st).
  split; [apply run_lands, Hst |].
  destruct (run_state_flags (Scoped body) st) as [Hp He].
  cbn [run_state] in *.
  destruct (run_state_restorable body (cache st) (GLState_pushed st)
              (stateStack st) [] eq_refl) as (f1 & Hs1 & Hres1).
  { split; [exact I |]. intros k. apply deepArrayEqual_refl. }
  destruct (restorable_popped (cache st) _ _ _ Hs1 Hres1) as [Hstack Hcache].
  auto.
Qed.

(** X8. Any script of hooked setters and scopes returns: no [pop()] in it
    meets an empty stack, since every [pop()] follows its own [push()].
    It leaves the scope stack as deep as it was and every frame below the
    top one as it was. *)
Theorem script_keeps_outer_frames (p : Script) (gl : GL) (st : GLState) :
  state gl = Some st ->
  exists st',
    lands (run p) gl st' /\
    List.length (stateStack st') = List.length (stateStack st) /\
    removelast (stateStack st') = removelast (stateStack st).
Proof.
  intros Hst. exists (run_state p st).
  split; [apply run_lands, Hst |].
  destruct (run_state_outer_frames p st) as (Hrem & Hnil).
  split; [apply same_removelast_same_length; assumption | exact Hrem].
Qed.

(** *** The program spy *)

Lemma strict_eq_refl (v : value) : strict_eq v v = true.
Proof.
  destruct v; simpl; auto using Bool.eqb_reflx, Z.eqb_refl, N.eqb_refl.
Qed.

(** X9. After [useProgram(handle)] through the program spy, repeating the
    call any number of times reaches the implementation no more: in total it
    was called once if the handle differed from the cached one, and not at
    all otherwise.  The cached handle is then strictly equal to [handle]. *)
Theorem useProgram_repeat_is_elided (name : string) (handle : value)
    (gl : GL) (st : GLState) (n : nat) :
  state gl = Some st ->
  exists gl1 st1,
    call_set (UseProgramLuma (SetNative name)) [handle] gl =
    Returns VUndefined gl1 /\
    repeat_call n (call_set (UseProgramLuma (SetNative name)) [handle])
      VUndefined gl1 = Returns VUndefined gl1 /\
    calls gl1 =
    calls gl ++
    (if strict_eq (program st) handle then [] else [CallSet name [handle]]) /\
    state gl1 = Some st1 /\
    strict_eq (program st1) handle = true.
Proof.
  intros Hst.
  assert (Hfix : forall gl1 st1,
             state gl1 = Some st1 -> strict_eq (program st1) handle = true ->
             repeat_call n (call_set (UseProgramLuma (SetNative name)) [handle])
               VUndefined gl1 = Returns VUndefined gl1).
  { intros gl1 st1 H1 Heq.
    rewrite (repeat_call_fixed _ gl1 VUndefined); [destruct n; reflexivity |].
    simpl. unfold bind, get_state. rewrite H1. simpl. rewrite Heq.
    reflexivity. }
  simpl call_set. unfold bind, get_state. rewrite Hst. simpl.
  destruct (strict_eq (program st) handle) eqn:E.
  - exists gl, st. rewrite app_nil_r. repeat split; auto.
    apply (Hfix gl st Hst E).
  - simpl. rewrite Hst. eexists _, _.
    split; [reflexivity |]. split; [| split; [reflexivity |]].
    + eapply Hfix; [reflexivity |]. apply strict_eq_refl.
    + split; [reflexivity | apply strict_eq_refl].
Qed.

(** X10. The program spy records nothing in the scope frame, so a scope
    does not rebind the program: [push(); useProgram(handle); pop()] ends
    exactly where [useProgram(handle)] alone ends, with [handle] cached and
    no restore call. *)
Theorem scope_does_not_rebind_program (name : string) (handle : value)
    (gl : GL) (st : GLState) :
  state gl = Some st ->
  (GLState_push ;; call_set (UseProgramLuma (SetNative name)) [handle] ;;
   GLState_pop) gl =
  (call_set (UseProgramLuma (SetNative name)) [handle] ;; ret tt) gl.
Proof.
  intros Hst. unfold bind at 1. rewrite (GLState_push_run gl st Hst).
  unfold bind. simpl call_set. unfold bind, get_state.
  rewrite Hst. cbn [state set_state program GLState_pushed].
  destruct (strict_eq (program st) handle) eqn:E.
  - unfold ret.
    rewrite (GLState_pop_run (set_state gl (Some (GLState_pushed st)))
               (GLState_pushed st) eq_refl) by apply snoc_not_nil.
    cbv zeta. cbn [stateStack GLState_pushed]. rewrite last_last.
    rewrite _updateCache_unchanged by constructor. cbn [snd valueChanged].
    fold (GLState_pushed st). rewrite GLState_popped_pushed.
    rewrite set_state_twice, set_state_same by exact Hst. reflexivity.
  - cbn [native_set state]. unfold put_state, ret. cbn [state set_state].
    set (st1 := mkGLState handle (stateStack st ++ [[]]) (enable st) (cache st)).
    match goal with
    | |- GLState_pop ?g = _ =>
        rewrite (GLState_pop_run g st1 eq_refl) by apply snoc_not_nil
    end.
    cbv zeta. cbn [stateStack st1]. rewrite last_last.
    rewrite _updateCache_unchanged by constructor. cbn [snd valueChanged].
    rewrite (GLState_popped_frame st1 (stateStack st) [] eq_refl).
    unfold GLState_updated. rewrite _updateCache_unchanged by constructor.
    rewrite Hst. reflexivity.
Qed.

(** *** Installing the interceptors *)

Lemma replace_fn_names (fs : list (string * SetFn)) (n : string) (f : SetFn) :
  map fst (replace_fn fs n f) = map fst fs.
Proof.
  induction fs as [| [n0 g] rest IH]; simpl; [reflexivity |].
  destruct (String.eqb n0 n); simpl; [reflexivity | rewrite IH; reflexivity].
Qed.

Lemma lookup_replace_fn_eq (fs : list (string * SetFn)) (n : string)
    (f : SetFn) :
  lookup_fn (replace_fn fs n f) n =
  match lookup_fn fs n with Some _ => Some f | None => None end.
Proof.
  induction fs as [| [n0 g] rest IH]; simpl; [reflexivity |].
  destruct (String.eqb n0 n) eqn:E; simpl; rewrite E; [reflexivity | exact IH].
Qed.

Lemma lookup_replace_fn_ne (fs : list (string * SetFn)) (n n' : string)
    (f : SetFn) :
  n' <> n -> lookup_fn (replace_fn fs n f) n' = lookup_fn fs n'.
Proof.
  intros Hne.
  induction fs as [| [n0 g] rest IH]; simpl; [reflexivity |].
  destruct (String.eqb_spec n0 n) as [-> | Hn0]; simpl.
  - destruct (String.eqb_spec n n'); [congruence | reflexivity].
  - rewrite IH. reflexivity.
Qed.

Lemma lookup_fn_None_iff (fs : list (string * SetFn)) (n : string) :
  lookup_fn fs n = None <-> ~ In n (map fst fs).
Proof.
  induction fs as [| [n0 g] rest IH]; simpl; [tauto |].
  destruct (String.eqb_spec n0 n) as [-> | Hne].
  - split; [discriminate | intros H; exfalso; apply H; left; reflexivity].
  - rewrite IH. tauto.
Qed.

Lemma set_functions_same (gl : GL) : set_functions gl (functions gl) = gl.
Proof. destruct gl; reflexivity. Qed.

Lemma installSetterSpy_run (name : string) (setter : adapter) (gl : GL) :
  exists fs',
    installSetterSpy name setter gl = Returns tt (set_functions gl fs') /\
    map fst fs' = map fst (functions gl) /\
    (forall n, n <> name -> lookup_fn fs' n = lookup_fn (functions gl) n) /\
    lookup_fn fs' name =
    option_map (SetToCache setter) (lookup_fn (functions gl) name).
Proof.
  unfold installSetterSpy.
  destruct (lookup_fn (functions gl) name) as [orig |] eqn:E.
  - eexists. split; [reflexivity |].
    split; [apply replace_fn_names |].
    split; [intros n Hne; apply lookup_replace_fn_ne, Hne |].
    rewrite lookup_replace_fn_eq, E. reflexivity.
  - exists (functions gl). rewrite set_functions_same.
    repeat split; auto.
Qed.

Lemma install_setters_run (table : list (string * adapter)) :
  forall gl : GL,
  exists fs',
    install_setters table gl = Returns tt (set_functions gl fs') /\
    map fst fs' = map fst (functions gl) /\
    (forall n, ~ In n (map fst table) ->
               lookup_fn fs' n = lookup_fn (functions gl) n) /\
    (NoDup (map fst table) ->
     forall n setter,
       In (n, setter) table ->
       lookup_fn fs' n =
       option_map (SetToCache setter) (lookup_fn (functions gl) n)).
Proof.
  induction table as [| [n0 s0] rest IH]; intros gl.
  - exists (functions gl). simpl. unfold ret. rewrite set_functions_same.
    repeat split; auto. intros _ n setter [].
  - destruct (installSetterSpy_run n0 s0 gl) as (fs1 & Hrun1 & Hnames1 & Hne1 & Heq1).
    destruct (IH (set_functions gl fs1)) as (fs' & Hrun & Hnames & Hout & Hin).
    exists fs'. cbn [install_setters]. unfold bind. rewrite Hrun1, Hrun.
    cbn [functions set_functions] in *.
    split; [reflexivity |].
    split; [congruence |].
    split.
    + intros n Hnot. simpl in Hnot.
      rewrite Hout by tauto. apply Hne1. intros ->. tauto.
    + intros Hnd n setter Hmem.
      inversion Hnd as [| ? ? Hnotin Hnd']; subst.
      destruct Hmem as [Heq | Hmem].
      * injection Heq as -> ->. rewrite Hout by exact Hnotin. exact Heq1.
      * rewrite (Hin Hnd' n setter Hmem).
        rewrite Hne1; [reflexivity |].
        intros ->. apply Hnotin.
        change n0 with (fst (n0, setter)). apply in_map. exact Hmem.
Qed.

(** X11. Installing the setter spies changes nothing but the functions
    named in the table: it returns, adds no function and removes none, a
    hooked setter the context does not have is still not there afterwards,
    and a function outside the table is the same as before; the
    implementation's state, the log of calls, the getters and [gl.state]
    are untouched. *)
Theorem install_setters_keeps_the_rest (table : list (string * adapter))
    (gl : GL) :
  exists gl',
    install_setters table gl = Returns tt gl' /\
    native gl' = native gl /\ calls gl' = calls gl /\
    getParameter gl' = getParameter gl /\ isEnabled gl' = isEnabled gl /\
    state gl' = state gl /\
    map fst (functions gl') = map fst (functions gl) /\
    (forall n, lookup_fn (functions gl) n = None ->
               lookup_fn (functions gl') n = None) /\
    (forall n, ~ In n (map fst table) ->
               lookup_fn (functions gl') n = lookup_fn (functions gl) n).
Proof.
  destruct (install_setters_run table gl) as (fs' & Hrun & Hnames & Hout & _).
  exists (set_functions gl fs'). cbn [set_functions native calls getParameter
                                       isEnabled state functions].
  repeat split; auto.
  intros n Hnone. apply lookup_fn_None_iff. rewrite Hnames.
  apply lookup_fn_None_iff, Hnone.
Qed.

(** X12. Each hooked setter that the context has is wrapped once, around
    the function that was there: with [setter] the table's adapter for
    [name] and [orig] the context's function of that name, the function
    installed is the spy of [setter] around [orig]. *)
Theorem install_setters_wraps_once (table : list (string * adapter))
    (gl : GL) (name : string) (setter : adapter) (orig : SetFn) :
  NoDup (map fst table) -> In (name, setter) table ->
  lookup_fn (functions gl) name = Some orig ->
  lookup_fn (functions (final (install_setters table gl))) name =
  Some (SetToCache setter orig).
Proof.
  intros Hnd Hin Horig.
  destruct (install_setters_run table gl) as (fs' & Hrun & _ & _ & Hwrap).
  rewrite Hrun. cbn [final set_functions functions].
  rewrite (Hwrap Hnd name setter Hin), Horig. reflexivity.
Qed.

(** *** The first initialization *)

Lemma installProgramSpy_run (gl : GL) (up : SetFn) :
  lookup_fn (functions gl) "useProgram" = Some up ->
  installProgramSpy gl =
  Returns tt
    (set_functions gl
       (replace_fn (functions gl) "useProgram" (UseProgramLuma up))).
Proof. intros H. unfold installProgramSpy. rewrite H. reflexivity. Qed.

(** The first initialization, step by step, for [gl0] the context after
    the polyfill. *)
Lemma trackContextState_first_time_run (gl : GL) (up : SetFn)
    (enable0 : option bool) :
  state gl = None ->
  lookup_fn (functions (polyfilled gl)) "useProgram" = Some up ->
  let gl0 := polyfilled gl in
  let st0 := mkGLState VNull [] true (obj_of_entries GL_PARAMETER_DEFAULTS) in
  let gl1 :=
    set_functions (set_state gl0 (Some st0))
      (replace_fn (functions gl0) "useProgram" (UseProgramLuma up)) in
  forall fs',
    install_setters GL_HOOKED_SETTERS gl1 = Returns tt (set_functions gl1 fs') ->
    let gl' :=
      tracked_context gl0 fs'
        (mkGLState VNull []
           (match enable0 with Some b => b | None => true end)
           (obj_of_entries GL_PARAMETER_DEFAULTS)) in
    trackContextState (Some (mkOptions enable0 (Some false))) gl =
    Returns gl' gl'.
Proof.
  intros Hst Hup gl0 st0 gl1 fs' Hrun gl'.
  unfold trackContextState, bind. cbn [assert opt_copyState ret].
  rewrite Hst.
  unfold gl', gl1, gl0, polyfilled in *. clear gl' gl1 gl0.
  destruct polyfillContext as [polyfill |];
    unfold new_GLState, bind, ret, put_state; fold st0;
    match goal with
    | |- context [installProgramSpy ?g] =>
        rewrite (installProgramSpy_run g up Hup)
    end;
    cbn [functions set_state] in *; rewrite Hrun; reflexivity.
Qed.

(** X13. The first [trackContextState] on a context (with [copyState]
    false, and [useProgram] there once the polyfill has run) attaches a
    state with no program, an empty scope stack, the [enable] option (true
    by default) and a cache holding the defaults table; it wraps the two
    getters once and calls nothing of the implementation.  It adds and
    removes no function, and leaves alone every function that is neither
    [useProgram] nor named in the setters table. *)
Theorem trackContextState_first_time (gl : GL) (up : SetFn)
    (enable0 : option bool) :
  state gl = None ->
  lookup_fn (functions (polyfilled gl)) "useProgram" = Some up ->
  exists fs',
    let gl' :=
      tracked_context (polyfilled gl) fs'
        (mkGLState VNull []
           (match enable0 with Some b => b | None => true end)
           (obj_of_entries GL_PARAMETER_DEFAULTS)) in
    trackContextState (Some (mkOptions enable0 (Some false))) gl =
    Returns gl' gl' /\
    map fst fs' = map fst (functions (polyfilled gl)) /\
    (forall n, n <> "useProgram"%string ->
               ~ In n (map fst GL_HOOKED_SETTERS) ->
               lookup_fn fs' n = lookup_fn (functions (polyfilled gl)) n).
Proof.
  intros Hst Hup.
  set (gl0 := polyfilled gl) in *.
  set (st0 := mkGLState VNull [] true (obj_of_entries GL_PARAMETER_DEFAULTS)).
  set (gl1 := set_functions (set_state gl0 (Some st0))
                (replace_fn (functions gl0) "useProgram" (UseProgramLuma up))).
  destruct (install_setters_run GL_HOOKED_SETTERS gl1)
    as (fs' & Hrun & Hnames & Hout & _).
  exists fs'. cbv zeta. split; [| split].
  - apply (trackContextState_first_time_run gl up enable0 Hst Hup fs' Hrun).
  - rewrite Hnames. unfold gl1. cbn [functions set_functions].
    apply replace_fn_names.
  - intros n Hne Hnot. rewrite (Hout n Hnot). unfold gl1.
    cbn [functions set_functions set_state].
    apply lookup_replace_fn_ne, Hne.
Qed.

(** X14. A first [trackContextState] on a context without [useProgram]
    throws a TypeError, but only after [gl.state] was attached: no
    interceptor is installed, and since the context now has a state, a
    second call takes it for tracked, returns normally and still installs
    nothing. *)
Theorem trackContextState_without_useProgram (gl : GL)
    (enable0 : option bool) (copyState : bool) :
  state gl = None ->
  lookup_fn (functions (polyfilled gl)) "useProgram" = None ->
  let st0 := mkGLState VNull [] true (obj_of_entries GL_PARAMETER_DEFAULTS) in
  let gl1 := set_state (polyfilled gl) (Some st0) in
  trackContextState (Some (mkOptions enable0 (Some false))) gl =
  Throws TypeError gl1 /\
  exists gl2,
    trackContextState (Some (mkOptions enable0 (Some copyState))) gl1 =
    Returns gl2 gl2 /\
    functions gl2 = functions (polyfilled gl) /\
    getParameter gl2 = getParameter (polyfilled gl) /\
    isEnabled gl2 = isEnabled (polyfilled gl).
Proof.
  intros Hst Hup st0 gl1. split.
  - unfold trackContextState, bind. cbn [assert opt_copyState ret].
    rewrite Hst. unfold gl1, polyfilled in *. clear gl1.
    destruct polyfillContext as [polyfill |];
      unfold new_GLState, bind, ret, put_state; fold st0;
      unfold installProgramSpy; cbn [functions set_state];
      rewrite Hup; reflexivity.
  - eexists. split; [reflexivity |]. repeat split.
Qed.

Lemma push_pop_cycle (gl : GL) (st : GLState) :
  state gl = Some st -> (GLState_push ;; GLState_pop) gl = Returns tt gl.
Proof.
  intros Hst. unfold bind. rewrite (GLState_push_run gl st Hst).
  rewrite (GLState_pop_run (set_state gl (Some (GLState_pushed st)))
             (GLState_pushed st) eq_refl) by apply snoc_not_nil.
  cbv zeta. cbn [stateStack GLState_pushed]. rewrite last_last.
  rewrite _updateCache_unchanged by constructor. cbn [snd valueChanged].
  fold (GLState_pushed st).
  rewrite GLState_popped_pushed, set_state_twice.
  rewrite set_state_same by exact Hst. reflexivity.
Qed.

(** X15. [pushContextState] on a context that is not tracked yet first
    initializes it as [trackContextState(gl, {copyState: false})] does, and
    then pushes: the scope stack holds one empty frame.  A
    [popContextState] right after it leaves the context as that
    initialization alone leaves it. *)
Theorem pushContextState_initializes (gl : GL) (up : SetFn) :
  state gl = None ->
  lookup_fn (functions (polyfilled gl)) "useProgram" = Some up ->
  exists gl1 st1,
    trackContextState (Some (mkOptions None (Some false))) gl =
    Returns gl1 gl1 /\
    state gl1 = Some st1 /\
    pushContextState gl =
    Returns tt (set_state gl1 (Some (GLState_pushed st1))) /\
    stateStack (GLState_pushed st1) = [[]] /\
    (pushContextState ;; popContextState) gl = Returns tt gl1.
Proof.
  intros Hst Hup.
  set (gl0 := polyfilled gl) in *.
  set (st0 := mkGLState VNull [] true (obj_of_entries GL_PARAMETER_DEFAULTS)).
  set (gl1 := set_functions (set_state gl0 (Some st0))
                (replace_fn (functions gl0) "useProgram" (UseProgramLuma up))).
  destruct (install_setters_run GL_HOOKED_SETTERS gl1) as (fs' & Hrun & _).
  pose proof (trackContextState_first_time_run gl up None Hst Hup fs' Hrun)
    as Htrack.
  cbv zeta in Htrack. fold gl0 st0 in Htrack.
  set (gl2 := tracked_context gl0 fs' st0) in *.
  assert (Hst2 : state gl2 = Some st0) by reflexivity.
  exists gl2, st0.
  assert (Hpush : pushContextState gl =
                  Returns tt (set_state gl2 (Some (GLState_pushed st0)))).
  { unfold pushContextState, bind. rewrite Hst.
    unfold bind. rewrite Htrack. cbn [ret].
    apply (GLState_push_run gl2 st0 Hst2). }
  split; [exact Htrack |]. split; [exact Hst2 |]. split; [exact Hpush |].
  split; [reflexivity |].
  pose proof (push_pop_cycle gl2 st0 Hst2) as Hcycle.
  unfold bind in Hcycle. rewrite (GLState_push_run gl2 st0 Hst2) in Hcycle.
  unfold bind. rewrite Hpush. unfold popContextState, bind.
  cbn [state set_state assert ret]. exact Hcycle.
Qed.

(** X16. Switching tracking off and on again through [trackContextState]
    leaves a tracked context whose flag was on exactly as it was: in
    between, queries were live (and left the entries of the cache alone);
    afterwards the entries cached before are served again. *)
Theorem enable_toggle_round_trip (gl : GL) (st : GLState)
    (copyState copyState' : bool) :
  state gl = Some st -> enable st = true ->
  (trackContextState (Some (mkOptions (Some false) (Some copyState))) ;;
   trackContextState (Some (mkOptions (Some true) (Some copyState')))) gl =
  Returns gl gl /\
  (trackContextState (Some (mkOptions (Some false) (Some copyState))) ;;
   trackContextState (Some (mkOptions None (Some copyState')))) gl =
  Returns gl gl.
Proof.
  intros Hst Hen.
  split; unfold trackContextState, bind, get_state; simpl; rewrite Hst; simpl;
    destruct gl as [u cs gp ie fs s0]; simpl in *; subst s0;
    destruct st as [p stk e c]; simpl in *; subst e; reflexivity.
Qed.

End Coverage.

(** ** The further theorems at work on the small implementation *)

Lemma getter_serves_from_cache_witness :
  state Demo.tracked = Some Demo.tracked_state /\
  enable Demo.tracked_state = true /\
  ~ In Demo.GL_BLEND (@NON_CACHE_PARAMETERS Demo.platform) /\
  obj_has (cache Demo.tracked_state) Demo.GL_BLEND = true /\
  call_get (GetFromCache (GetNative "isEnabled")) (Some Demo.GL_BLEND)
    Demo.tracked = Returns (VBool false) Demo.tracked.
Proof.
  assert (Hnot : ~ In Demo.GL_BLEND (@NON_CACHE_PARAMETERS Demo.platform))
    by (intros [H | []]; discriminate H).
  repeat (split; [first [reflexivity | exact Hnot] |]).
  apply (@getter_serves_from_cache Demo.platform (GetNative "isEnabled")
           Demo.GL_BLEND Demo.tracked Demo.tracked_state
           eq_refl eq_refl Hnot eq_refl).
Defined.

Lemma getter_lazy_fill_reads_once_witness :
  state Demo.tracked = Some Demo.tracked_state /\
  enable Demo.tracked_state = true /\
  ~ In Demo.GL_MAX_TEXTURE_SIZE (@NON_CACHE_PARAMETERS Demo.platform) /\
  obj_has (cache Demo.tracked_state) Demo.GL_MAX_TEXTURE_SIZE = false /\
  exists gl1 : GL,
    call_get (GetFromCache (GetNative "getParameter"))
      (Some Demo.GL_MAX_TEXTURE_SIZE) Demo.tracked =
    Returns (VNum 4096%Z) gl1 /\
    calls gl1 = [CallGet "getParameter" (Some Demo.GL_MAX_TEXTURE_SIZE)] /\
    (forall orig : GetFn,
        call_get (GetFromCache orig) (Some Demo.GL_MAX_TEXTURE_SIZE) gl1 =
        Returns (VNum 4096%Z) gl1).
Proof.
  assert (Hnot : ~ In Demo.GL_MAX_TEXTURE_SIZE
                     (@NON_CACHE_PARAMETERS Demo.platform))
    by (intros [H | []]; discriminate H).
  repeat (split; [first [reflexivity | exact Hnot] |]).
  pose proof (@getter_lazy_fill_reads_once Demo.platform "getParameter"
                Demo.GL_MAX_TEXTURE_SIZE Demo.tracked Demo.tracked_state
                eq_refl eq_refl Hnot eq_refl) as H.
  cbv zeta in H. destruct H as [Hfirst Hlater].
  eexists. split; [exact Hfirst |]. split; [reflexivity | exact Hlater].
Defined.

Lemma setter_then_getter_round_trip_witness :
  state Demo.tracked = Some Demo.tracked_state /\
  enable Demo.tracked_state = true /\
  ~ In Demo.GL_BLEND_COLOR (@NON_CACHE_PARAMETERS Demo.platform) /\
  Demo.blendColor_adapter Demo.red =
    [(Demo.GL_BLEND_COLOR, VArray 1 Demo.red)] /\
  deepArrayEqual (VArray 1 Demo.red)
    (obj_get (cache Demo.tracked_state) Demo.GL_BLEND_COLOR) = false /\
  exists (x : value) (gl' : GL),
    (call_set Demo.gl_blendColor Demo.red ;;
     call_get (GetFromCache (GetNative "getParameter"))
       (Some Demo.GL_BLEND_COLOR)) Demo.tracked = Returns x gl' /\
    deepArrayEqual (VArray 1 Demo.red) x = true /\
    (deepArrayEqual (VArray 1 Demo.red)
       (obj_get (cache Demo.tracked_state) Demo.GL_BLEND_COLOR) = false ->
     x = VArray 1 Demo.red) /\
    calls gl' =
    calls Demo.tracked ++
    (if deepArrayEqual (VArray 1 Demo.red)
          (obj_get (cache Demo.tracked_state) Demo.GL_BLEND_COLOR)
     then [] else [CallSet "blendColor" Demo.red]).
Proof.
  assert (Hnot : ~ In Demo.GL_BLEND_COLOR (@NON_CACHE_PARAMETERS Demo.platform))
    by (intros [H | []]; discriminate H).
  repeat (split; [first [reflexivity | exact Hnot] |]).
  apply (@setter_then_getter_round_trip Demo.platform Demo.blendColor_adapter
           "blendColor" (GetNative "getParameter") Demo.red
           Demo.GL_BLEND_COLOR (VArray 1 Demo.red) Demo.tracked
           Demo.tracked_state eq_refl eq_refl Hnot eq_refl).
  right. reflexivity.
Defined.

Lemma updateCache_reports_last_change_witness :
  NoDup (obj_keys ([] ++ (Demo.GL_BLEND, VBool true) ::
                   [(Demo.GL_BLEND_COLOR, VArray 5 Demo.zero4)])) /\
  deepArrayEqual (VBool true) (obj_get (cache Demo.tracked_state) Demo.GL_BLEND) =
    false /\
  matches_cache (cache Demo.tracked_state)
    [(Demo.GL_BLEND_COLOR, VArray 5 Demo.zero4)] /\
  snd (_updateCache Demo.tracked_state
         ([] ++ (Demo.GL_BLEND, VBool true) ::
          [(Demo.GL_BLEND_COLOR, VArray 5 Demo.zero4)])) =
  mkUpdateResult true (VBool false).
Proof.
  assert (Hnd : NoDup (obj_keys ([] ++ (Demo.GL_BLEND, VBool true) ::
                          [(Demo.GL_BLEND_COLOR, VArray 5 Demo.zero4)]))).
  { repeat constructor; simpl; intros H; repeat destruct H as [H | H];
      try discriminate H; exact H. }
  assert (Hm : matches_cache (cache Demo.tracked_state)
                 [(Demo.GL_BLEND_COLOR, VArray 5 Demo.zero4)])
    by (repeat constructor).
  split; [exact Hnd |]. split; [reflexivity |]. split; [exact Hm |].
  apply (proj1
           (@updateCache_reports_last_change Demo.platform Demo.tracked_state
              [] [(Demo.GL_BLEND_COLOR, VArray 5 Demo.zero4)] Demo.GL_BLEND
              (VBool true) Hnd eq_refl Hm)).
Defined.

Lemma scope_frame_records_changes_witness :
  stateStack Demo.nested_state = [[]] ++ [[(Demo.GL_BLEND, VBool false)]] /\
  NoDup (obj_keys [(Demo.GL_BLEND_COLOR, VArray 1 Demo.red)]) /\
  exists f',
    stateStack (fst (_updateCache Demo.nested_state
                       [(Demo.GL_BLEND_COLOR, VArray 1 Demo.red)])) =
    [[]] ++ [f'] /\
    (forall k v,
        In (k, v) [(Demo.GL_BLEND_COLOR, VArray 1 Demo.red)] ->
        deepArrayEqual v (obj_get (cache Demo.nested_state) k) = false ->
        obj_has [(Demo.GL_BLEND, VBool false)] k = false ->
        obj_find f' k = Some (obj_get (cache Demo.nested_state) k)) /\
    (forall k,
        obj_has f' k = true ->
        obj_has [(Demo.GL_BLEND, VBool false)] k = true \/
        exists v, In (k, v) [(Demo.GL_BLEND_COLOR, VArray 1 Demo.red)] /\
                  deepArrayEqual v (obj_get (cache Demo.nested_state) k) =
                  false).
Proof.
  assert (Hnd : NoDup (obj_keys [(Demo.GL_BLEND_COLOR, VArray 1 Demo.red)]))
    by (repeat constructor; intros []).
  split; [reflexivity |]. split; [exact Hnd |].
  apply (scope_frame_records_changes Demo.nested_state [[]]
           [(Demo.GL_BLEND, VBool false)]
           [(Demo.GL_BLEND_COLOR, VArray 1 Demo.red)] eq_refl Hnd).
Defined.

Lemma scope_restores_cache_witness :
  state Demo.tracked = Some Demo.tracked_state /\
  exists st',
    lands (run (Scoped Demo.paint)) Demo.tracked st' /\
    stateStack st' = stateStack Demo.tracked_state /\
    (forall k,
        deepArrayEqual (obj_get (cache st') k)
          (obj_get (cache Demo.tracked_state) k) = true) /\
    program st' = program Demo.tracked_state /\
    enable st' = enable Demo.tracked_state.
Proof.
  split; [reflexivity |].
  apply (@scope_restores_cache Demo.platform Demo.paint Demo.tracked
           Demo.tracked_state eq_refl).
Defined.

Lemma script_keeps_outer_frames_witness :
  state Demo.nested = Some Demo.nested_state /\
  exists st',
    lands (run Demo.paint) Demo.nested st' /\
    List.length (stateStack st') = List.length (stateStack Demo.nested_state) /\
    removelast (stateStack st') = removelast (stateStack Demo.nested_state).
Proof.
  split; [reflexivity |].
  apply (@script_keeps_outer_frames Demo.platform Demo.paint Demo.nested
           Demo.nested_state eq_refl).
Defined.

Lemma useProgram_repeat_is_elided_witness :
  state Demo.tracked = Some Demo.tracked_state /\
  exists gl1 st1,
    call_set (UseProgramLuma (SetNative "useProgram")) [VObject 7]
      Demo.tracked = Returns VUndefined gl1 /\
    repeat_call 2 (call_set (UseProgramLuma (SetNative "useProgram"))
                     [VObject 7]) VUndefined gl1 = Returns VUndefined gl1 /\
    calls gl1 =
    calls Demo.tracked ++
    (if strict_eq (program Demo.tracked_state) (VObject 7) then []
     else [CallSet "useProgram" [VObject 7]]) /\
    state gl1 = Some st1 /\
    strict_eq (program st1) (VObject 7) = true.
Proof.
  split; [reflexivity |].
  apply (@useProgram_repeat_is_elided Demo.platform "useProgram" (VObject 7)
           Demo.tracked Demo.tracked_state 2 eq_refl).
Defined.

Lemma scope_does_not_rebind_program_witness :
  state Demo.tracked = Some Demo.tracked_state /\
  (GLState_push ;;
   call_set (UseProgramLuma (SetNative "useProgram")) [VObject 7] ;;
   GLState_pop) Demo.tracked =
  (call_set (UseProgramLuma (SetNative "useProgram")) [VObject 7] ;; ret tt)
    Demo.tracked.
Proof.
  split; [reflexivity |].
  apply (@scope_does_not_rebind_program Demo.platform "useProgram" (VObject 7)
           Demo.tracked Demo.tracked_state eq_refl).
Defined.

Lemma install_setters_wraps_once_witness :
  NoDup (map fst (@GL_HOOKED_SETTERS Demo.platform)) /\
  In ("enable"%string, Demo.enable_adapter) (@GL_HOOKED_SETTERS Demo.platform) /\
  lookup_fn (functions Demo.fresh) "enable" = Some (SetNative "enable") /\
  lookup_fn
    (functions (final (install_setters (@GL_HOOKED_SETTERS Demo.platform)
                         Demo.fresh))) "enable" =
  Some (SetToCache Demo.enable_adapter (SetNative "enable")).
Proof.
  assert (Hnd : NoDup (map fst (@GL_HOOKED_SETTERS Demo.platform))).
  { repeat constructor; simpl; intros H; repeat destruct H as [H | H];
      try discriminate H; exact H. }
  assert (Hin : In ("enable"%string, Demo.enable_adapter)
                  (@GL_HOOKED_SETTERS Demo.platform)) by (left; reflexivity).
  split; [exact Hnd |]. split; [exact Hin |]. split; [reflexivity |].
  apply (@install_setters_wraps_once Demo.platform
           (@GL_HOOKED_SETTERS Demo.platform) Demo.fresh "enable"
           Demo.enable_adapter (SetNative "enable") Hnd Hin eq_refl).
Defined.

Lemma trackContextState_first_time_witness :
  state Demo.fresh = None /\
  lookup_fn (functions (polyfilled Demo.fresh)) "useProgram" =
    Some (SetNative "useProgram") /\
  exists fs',
    trackContextState (Some (mkOptions None (Some false))) Demo.fresh =
    Returns
      (tracked_context (polyfilled Demo.fresh) fs'
         (mkGLState VNull [] true
            (obj_of_entries (@GL_PARAMETER_DEFAULTS Demo.platform))))
      (tracked_context (polyfilled Demo.fresh) fs'
         (mkGLState VNull [] true
            (obj_of_entries (@GL_PARAMETER_DEFAULTS Demo.platform)))) /\
    map fst fs' = map fst (functions (polyfilled Demo.fresh)) /\
    (forall n, n <> "useProgram"%string ->
               ~ In n (map fst (@GL_HOOKED_SETTERS Demo.platform)) ->
               lookup_fn fs' n = lookup_fn (functions (polyfilled Demo.fresh)) n).
Proof.
  split; [reflexivity |]. split; [reflexivity |].
  apply (@trackContextState_first_time Demo.platform Demo.fresh
           (SetNative "useProgram") None eq_refl eq_refl).
Defined.

Lemma trackContextState_without_useProgram_witness :
  state Demo.bare = None /\
  lookup_fn (functions (polyfilled Demo.bare)) "useProgram" = None /\
  trackContextState (Some (mkOptions None (Some false))) Demo.bare =
  Throws TypeError
    (set_state (polyfilled Demo.bare)
       (Some (mkGLState VNull [] true
                (obj_of_entries (@GL_PARAMETER_DEFAULTS Demo.platform))))) /\
  exists gl2,
    trackContextState (Some (mkOptions None (Some true)))
      (set_state (polyfilled Demo.bare)
         (Some (mkGLState VNull [] true
                  (obj_of_entries (@GL_PARAMETER_DEFAULTS Demo.platform))))) =
    Returns gl2 gl2 /\
    functions gl2 = functions (polyfilled Demo.bare) /\
    getParameter gl2 = getParameter (polyfilled Demo.bare) /\
    isEnabled gl2 = isEnabled (polyfilled Demo.bare).
Proof.
  split; [reflexivity |]. split; [reflexivity |].
  apply (@trackContextState_without_useProgram Demo.platform Demo.bare None
           true eq_refl eq_refl).
Defined.

Lemma pushContextState_initializes_witness :
  state Demo.fresh = None /\
  lookup_fn (functions (polyfilled Demo.fresh)) "useProgram" =
    Some (SetNative "useProgram") /\
  exists gl1 st1,
    trackContextState (Some (mkOptions None (Some false))) Demo.fresh =
    Returns gl1 gl1 /\
    state gl1 = Some st1 /\
    pushContextState Demo.fresh =
    Returns tt (set_state gl1 (Some (GLState_pushed st1))) /\
    stateStack (GLState_pushed st1) = [[]] /\
    (pushContextState ;; popContextState) Demo.fresh = Returns tt gl1.
Proof.
  split; [reflexivity |]. split; [reflexivity |].
  apply (@pushContextState_initializes Demo.platform Demo.fresh
           (SetNative "useProgram") eq_refl eq_refl).
Defined.

Lemma enable_toggle_round_trip_witness :
  state Demo.tracked = Some Demo.tracked_state /\
  enable Demo.tracked_state = true /\
  (trackContextState (Some (mkOptions (Some false) (Some false))) ;;
   trackContextState (Some (mkOptions (Some true) (Some false))))
    Demo.tracked = Returns Demo.tracked Demo.tracked /\
  (trackContextState (Some (mkOptions (Some false) (Some false))) ;;
   trackContextState (Some (mkOptions None (Some false))))
    Demo.tracked = Returns Demo.tracked Demo.tracked.
Proof.
  split; [reflexivity |]. split; [reflexivity |].
  apply (@enable_toggle_round_trip Demo.platform Demo.tracked
           Demo.tracked_state false false eq_refl eq_refl).
Defined.
